(** * createGitHubPR: a shallow embedding of the fork-branch-commit-PR workflow

    The workflow of [createGitHubPR] drives a remote sandbox (the CodeSandbox
    SDK) and, inside it, [git] and the GitHub CLI.  The embedding keeps the
    program as it is written: JavaScript strings and the regular
    expressions of the source, the record types of the result, every shell
    command template, and the [try]/[catch]/[return] control flow, threaded
    through a small monad over an explicit model of the outside world. *)

From Stdlib Require Import List String Ascii ZArith NArith Bool Arith Lia.
From Stdlib Require Import Decimal DecimalString DecimalZ.
Import ListNotations.

#[local] Open Scope list_scope.
#[local] Open Scope string_scope.

(* ================================================================= *)
(** ** JavaScript text

    Text is modelled as Rocq strings (sequences of 8-bit characters; text
    outside ASCII is carried as its UTF-8 bytes).  Case folding and the
    white-space class act on the ASCII range. *)

Module Js.

(** The double-quote character, built from its code so that no literal has
    to escape it. *)
Definition dquote : string := String (ascii_of_nat 34) EmptyString.

(** Line feed, the [\n] of the source's template literals. *)
Definition nl : string := String (ascii_of_nat 10) EmptyString.

(** [\s] of a regular expression and the characters removed by [trim]:
    tab, line feed, vertical tab, form feed, carriage return and space. *)
Definition is_space (c : ascii) : bool :=
  let n := nat_of_ascii c in
  ((9 <=? n)%nat && (n <=? 13)%nat) || (n =? 32)%nat.

Definition lower_char (c : ascii) : ascii :=
  let n := nat_of_ascii c in
  if ((65 <=? n)%nat && (n <=? 90)%nat) then ascii_of_nat (n + 32) else c.

(** [String.prototype.toLowerCase]. *)
Fixpoint toLowerCase (s : string) : string :=
  match s with
  | EmptyString => EmptyString
  | String c s' => String (lower_char c) (toLowerCase s')
  end.

Fixpoint trimStart (s : string) : string :=
  match s with
  | EmptyString => EmptyString
  | String c s' => if is_space c then trimStart s' else s
  end.

(** White space is dropped from the end: a character is kept when it is not
    a space or when something is kept after it. *)
Fixpoint trimEnd (s : string) : string :=
  match s with
  | EmptyString => EmptyString
  | String c s' =>
      match trimEnd s' with
      | EmptyString => if is_space c then EmptyString else String c EmptyString
      | t => String c t
      end
  end.

(** [String.prototype.trim]. *)
Definition trim (s : string) : string := trimEnd (trimStart s).

(** [s.replace(/c/g, by)] with an empty replacement, for a one-character
    pattern. *)
Fixpoint remove_char (c : ascii) (s : string) : string :=
  match s with
  | EmptyString => EmptyString
  | String a s' =>
      if Ascii.eqb a c then remove_char c s' else String a (remove_char c s')
  end.

(** The first [n] characters, and what is left after them. *)
Fixpoint take (n : nat) (s : string) : string :=
  match n, s with
  | S n', String c s' => String c (take n' s')
  | _, _ => EmptyString
  end.

Fixpoint drop (n : nat) (s : string) : string :=
  match n, s with
  | S n', String _ s' => drop n' s'
  | _, _ => s
  end.

(** [strip_prefix l s] is the rest of [s] after the literal [l], when [s]
    starts with it. *)
Fixpoint strip_prefix (l s : string) : option string :=
  match l with
  | EmptyString => Some s
  | String a l' =>
      match s with
      | EmptyString => None
      | String b s' => if Ascii.eqb a b then strip_prefix l' s' else None
      end
  end.

(** Number-to-string conversion of an integer-valued number (as in a
    template literal): plain decimal digits, with a sign when negative. *)
Definition string_of_Z (z : Z) : string := NilZero.string_of_int (Z.to_int z).

(** *** Regular expressions

    The fragment of the regular-expression language the source uses, with
    the backtracking semantics of the JavaScript engine: alternatives are
    tried greedily (longest repetition first, an optional part present
    first), the continuation [k] is what remains to be matched. *)

Inductive regex : Type :=
| Lit (l : string)              (* literal characters *)
| PlusClass (p : ascii -> bool) (* [...]+ , greedy *)
| Opt (r : regex)               (* (?:r)? , greedy *)
| Group (r : regex)             (* (r) , capturing *)
| Seq (r1 r2 : regex)           (* r1 r2 *)
| Eos.                          (* $ *)

Fixpoint plus_class {R : Type} (p : ascii -> bool) (s : string)
    (k : string -> option R) : option R :=
  match s with
  | EmptyString => None
  | String c s' =>
      if p c then
        match plus_class p s' k with
        | Some x => Some x
        | None => k s'
        end
      else None
  end.

Fixpoint mtch {R : Type} (r : regex) (s : string) (caps : list string)
    (k : string -> list string -> option R) : option R :=
  match r with
  | Lit l =>
      match strip_prefix l s with
      | Some s' => k s' caps
      | None => None
      end
  | PlusClass p => plus_class p s (fun s' => k s' caps)
  | Opt r1 =>
      match mtch r1 s caps k with
      | Some x => Some x
      | None => k s caps
      end
  | Group r1 =>
      mtch r1 s caps
        (fun s' caps' =>
           k s' (caps' ++ [take (length s - length s') s])%list)
  | Seq r1 r2 => mtch r1 s caps (fun s' caps' => mtch r2 s' caps' k)
  | Eos =>
      match s with
      | EmptyString => k s caps
      | String _ _ => None
      end
  end.

(** The result of [RegExp.prototype.exec]: the text before the match, the
    match itself (index 0 of the JavaScript array), the captured groups
    (indices 1, 2, ...) and the text after the match. *)
Record MatchResult : Type := {
  m_before : string;
  m_whole : string;
  m_groups : list string;
  m_after : string
}.

(** A match anchored at the start of [s]. *)
Definition match_here (r : regex) (s : string) : option (string * list string) :=
  mtch r s [] (fun s' caps => Some (s', caps)).

(** The leftmost match: positions are tried from left to right, the end of
    the text included.  [before] accumulates the skipped characters. *)
Fixpoint exec_from (r : regex) (before : string) (s : string) : option MatchResult :=
  match match_here r s with
  | Some (rest, caps) =>
      Some {| m_before := before;
              m_whole := take (length s - length rest) s;
              m_groups := caps;
              m_after := rest |}
  | None =>
      match s with
      | EmptyString => None
      | String c s' => exec_from r (before ++ String c EmptyString) s'
      end
  end.

(** [s.match(r)] for a pattern without the [g] flag. *)
Definition exec (r : regex) (s : string) : option MatchResult :=
  exec_from r EmptyString s.

(** [s.replace(r, by)] for a pattern without the [g] flag: the first match
    is replaced, a text without a match is returned as it is. *)
Definition replace (r : regex) (by_ : string) (s : string) : string :=
  match exec r s with
  | Some m => m_before m ++ by_ ++ m_after m
  | None => s
  end.

(** *** Dates *)

(** Civil date (year, month, day) of a day count since 1970-01-01, in the
    proleptic Gregorian calendar. *)
Definition civil_from_days (days : Z) : Z * Z * Z :=
  let z := (days + 719468)%Z in
  let era := (z / 146097)%Z in
  let doe := (z - era * 146097)%Z in
  let yoe := ((doe - doe / 1460 + doe / 36524 - doe / 146096) / 365)%Z in
  let doy := (doe - (365 * yoe + yoe / 4 - yoe / 100))%Z in
  let mp := ((5 * doy + 2) / 153)%Z in
  let d := (doy - (153 * mp + 2) / 5 + 1)%Z in
  let m := (if (mp <? 10)%Z then mp + 3 else mp - 9)%Z in
  let y := (yoe + era * 400 + (if (m <=? 2)%Z then 1 else 0))%Z in
  (y, m, d).

(** A non-negative number in at least [width] decimal digits. *)
Definition pad (width : nat) (z : Z) : string :=
  let s := string_of_Z z in
  let fix zeros (n : nat) : string :=
    match n with O => EmptyString | S n' => String "0" (zeros n') end in
  zeros (width - length s) ++ s.

(** [Date.prototype.toISOString] of the time value [ms] (milliseconds since
    the epoch): [YYYY-MM-DDTHH:mm:ss.sssZ], with the signed six-digit year
    outside 0..9999. *)
Definition toISOString (ms : Z) : string :=
  let days := (ms / 86400000)%Z in
  let tod := (ms mod 86400000)%Z in
  let '(y, m, d) := civil_from_days days in
  let year :=
    if ((0 <=? y) && (y <=? 9999))%Z then pad 4 y
    else if (y <? 0)%Z then "-" ++ pad 6 (- y) else "+" ++ pad 6 y in
  year ++ "-" ++ pad 2 m ++ "-" ++ pad 2 d ++ "T" ++
  pad 2 (tod / 3600000) ++ ":" ++ pad 2 ((tod / 60000) mod 60) ++ ":" ++
  pad 2 ((tod / 1000) mod 60) ++ "." ++ pad 3 (tod mod 1000) ++ "Z".

End Js.

Import Js.

(* ================================================================= *)
(** ** Data model *)

(** One caller-supplied file edit. *)
Record FileChange : Type := {
  path : string;
  content : string
}.

(** [CreatePROptions]: every field but [repoUrl] is optional. *)
Record CreatePROptions : Type := {
  repoUrl : string;
  commitMessage : option string;
  prTitle : option string;
  prBody : option string;
  fileChanges : option (list FileChange)
}.

(** The [data] object of a result.  An optional field that is absent or
    holds [undefined] is [None]. *)
Record PRData : Type := {
  prUrl : string;
  branchName : string;
  sandboxId : string;
  forked : option bool;
  forkUrl : option string
}.

(** [CreatePRResult]. *)
Record CreatePRResult : Type := {
  success : bool;
  data : option PRData;
  error : option string
}.

(** The part of [process.env] the function reads. *)
Record Env : Type := {
  GITHUB_PERSONAL_ACCESS_TOKEN : option string
}.

(** A thrown value: an [Error] object with its message, or anything else. *)
Inductive Thrown : Type :=
| ErrorObject (message : string)
| NotAnError.

(** How the promise of an [async] function settles. *)
Inductive Settled : Type :=
| Fulfilled (r : CreatePRResult)
| RejectedWith (e : Thrown).

(* ================================================================= *)
(** ** The outside world *)

(** The shell commands the workflow runs inside the sandbox, one
    constructor for each command template of the source. *)
Inductive Cmd : Type :=
| GhAuthLogin (accessToken : string)
| GhAuthSetupGit
| GitConfigUserName
| GitConfigUserEmail
| GhApiUserLogin
| GhRepoView (user repo : string)
| TestDir (dir : string)
| GitStatus (dir : string)
| GitRemoteSetUrlOrigin (dir url : string)
| GitRemoteAddOrigin (dir url : string)
| GitRemoteAddUpstream (dir url : string)
| GitRemoteSetUrlUpstream (dir url : string)
| RmRf (dir : string)
| GitClone (url dir : string)
| GitCheckoutMain (dir : string)
| GitFetchUpstream (dir : string)
| GitMergeUpstreamMain (dir : string)
| GitPushOriginMain (dir : string)
| GitPullOriginMain (dir : string)
| GitCheckoutNewBranch (dir branch : string)
| GitAddAll (dir : string)
| GhApiUserEmail (dir : string)
| GitCommit (dir msg : string)
| GitPushSetUpstream (dir branch : string)
| GhPrCreateFromFork (dir title body user branch owner repo : string)
| GhPrCreate (dir title body branch : string).

(** The text handed to [client.commands.run]. *)
Definition render (c : Cmd) : string :=
  match c with
  | GhAuthLogin accessToken =>
      "echo " ++ dquote ++ accessToken ++ dquote ++ " | gh auth login --with-token"
  | GhAuthSetupGit => "gh auth setup-git"
  | GitConfigUserName => "git config --global user.name 'code0'"
  | GitConfigUserEmail =>
      "git config --global user.email 'anthony@crafterstation.com'"
  | GhApiUserLogin => "gh api user --jq '.login'"
  | GhRepoView user repo => "gh repo view " ++ user ++ "/" ++ repo
  | TestDir dir =>
      "test -d " ++ dir ++ " && echo " ++ dquote ++ "exists" ++ dquote ++
      " || echo " ++ dquote ++ "not_exists" ++ dquote
  | GitStatus dir => "cd " ++ dir ++ " && git status"
  | GitRemoteSetUrlOrigin dir url =>
      "cd " ++ dir ++ " && git remote set-url origin " ++ url
  | GitRemoteAddOrigin dir url =>
      "cd " ++ dir ++ " && git remote add origin " ++ url
  | GitRemoteAddUpstream dir url =>
      "cd " ++ dir ++ " && git remote add upstream " ++ url
  | GitRemoteSetUrlUpstream dir url =>
      "cd " ++ dir ++ " && git remote set-url upstream " ++ url
  | RmRf dir => "rm -rf " ++ dir
  | GitClone url dir => "git clone " ++ url ++ " " ++ dir
  | GitCheckoutMain dir => "cd " ++ dir ++ " && git checkout main"
  | GitFetchUpstream dir => "cd " ++ dir ++ " && git fetch upstream"
  | GitMergeUpstreamMain dir => "cd " ++ dir ++ " && git merge upstream/main"
  | GitPushOriginMain dir => "cd " ++ dir ++ " && git push origin main"
  | GitPullOriginMain dir => "cd " ++ dir ++ " && git pull origin main"
  | GitCheckoutNewBranch dir branch =>
      "cd " ++ dir ++ " && git checkout -b " ++ branch
  | GitAddAll dir => "cd " ++ dir ++ " && git add ."
  | GhApiUserEmail dir =>
      "cd " ++ dir ++ " && gh api user --jq '.email // (.login + " ++ dquote ++
      "@users.noreply.github.com" ++ dquote ++ ")'"
  | GitCommit dir msg =>
      "cd " ++ dir ++ " && git commit -m " ++ dquote ++ msg ++ dquote
  | GitPushSetUpstream dir branch =>
      "cd " ++ dir ++ " && git push --set-upstream origin " ++ branch
  | GhPrCreateFromFork dir title body user branch owner repo =>
      "cd " ++ dir ++ " && gh pr create --title " ++ dquote ++ title ++ dquote ++
      " --body " ++ dquote ++ body ++ dquote ++ " --head " ++ user ++ ":" ++
      branch ++ " --base main --repo " ++ owner ++ "/" ++ repo
  | GhPrCreate dir title body branch =>
      "cd " ++ dir ++ " && gh pr create --title " ++ dquote ++ title ++ dquote ++
      " --body " ++ dquote ++ body ++ dquote ++ " --head " ++ branch ++
      " --base main"
  end.


(** An operation on the sandbox platform: the SDK's sandbox life cycle
    ([create] is the call of [labs/index.ts]), the command runner and the
    file API of a connected client. *)
Inductive Op : Type :=
| SandboxesCreate (id : string)
| SandboxesResume (id : string)
| SandboxesShutdown (id : string)
| SandboxConnect (id : string)
| CommandsRun (c : Cmd)
| FsReadTextFile (file : string)
| FsWriteTextFile (file text : string).

(** The awaited promise of an operation: resolved with a text (the command
    output, the file content, the sandbox identifier; unused for the
    others) or rejected. *)
Inductive Reply : Type :=
| Resolved (value : string)
| Rejected (reason : Thrown).

(** What a run leaves in the history: an operation with its reply, or a
    reading of the clock ([Date.now()], [new Date()]). *)
Inductive Event : Type :=
| Performed (op : Op) (reply : Reply)
| ClockRead (t : Z).

(** The world: the history so far, and how the platform and the clock
    answer after a given history. *)
Record World : Type := {
  trace : list Event;
  respond : list Event -> Op -> Reply;
  time : list Event -> Z
}.

Definition extend (w : World) (evs : list Event) : World :=
  {| trace := (trace w ++ evs)%list; respond := respond w; time := time w |}.

(* ================================================================= *)
(** ** Control flow *)

(** How a block of statements completes: normally with a value, by a
    [return] statement of the function, or by a [throw]. *)
Inductive Completion (A : Type) : Type :=
| Normal (a : A)
| Return (r : CreatePRResult)
| Throw (e : Thrown).

Arguments Normal {A} a.
Arguments Return {A} r.
Arguments Throw {A} e.

(** A computation reads the world and yields its completion together with
    the events it adds to the history. *)
Definition M (A : Type) : Type := World -> Completion A * list Event.

Definition ret {A : Type} (a : A) : M A := fun _ => (Normal a, []).

Definition return_ {A : Type} (r : CreatePRResult) : M A := fun _ => (Return r, []).

Definition bind {A B : Type} (m : M A) (f : A -> M B) : M B :=
  fun w =>
    match m w with
    | (Normal a, evs) =>
        let (c, evs') := f a (extend w evs) in (c, (evs ++ evs')%list)
    | (Return r, evs) => (Return r, evs)
    | (Throw e, evs) => (Throw e, evs)
    end.

(** [try { m } catch (e) { h e }]. *)
Definition try_catch {A : Type} (m : M A) (h : Thrown -> M A) : M A :=
  fun w =>
    match m w with
    | (Throw e, evs) =>
        let (c, evs') := h e (extend w evs) in (c, (evs ++ evs')%list)
    | other => other
    end.

(** [await] of an operation of the platform. *)
Definition perform (op : Op) : M string :=
  fun w =>
    let r := respond w (trace w) op in
    (match r with Resolved v => Normal v | Rejected e => Throw e end,
     [Performed op r]).

(** The current time value, as read by [Date.now()] and [new Date()]. *)
Definition now : M Z :=
  fun w => let t := time w (trace w) in (Normal t, [ClockRead t]).

(** [console.log]: local output, never an operation on the platform. *)
Definition console_log (args : list string) : M unit := ret tt.

Declare Scope monad_scope.
Delimit Scope monad_scope with monad.
Notation "x <- m ;; k" := (bind m (fun x => k))
  (at level 61, m at next level, right associativity) : monad_scope.
Notation "m ;; k" := (bind m (fun _ => k))
  (at level 61, right associativity) : monad_scope.
Notation "' p <- m ;; k" := (bind m (fun x => match x with p => k end))
  (at level 61, p pattern, m at next level, right associativity) : monad_scope.
#[local] Open Scope monad_scope.

(* ================================================================= *)
(** ** The SDK surface

    [csb], the SDK client the function imports from [@/lib/code-sandbox],
    is a client of the CodeSandbox SDK like the one [labs/resume.ts] builds.
    Nothing is assumed about what it does: each of its calls is an
    operation that the world answers. *)

Record Sandbox : Type := { id : string }.

(** A connected client; every operation of a client goes to its sandbox. *)
Record Client : Type := { client_of : Sandbox }.

(** [sdk.sandboxes.resume(id)]: the handle carries the identifier the
    platform reports. *)
Definition sandboxes_resume (sandboxId : string) : M Sandbox :=
  v <- perform (SandboxesResume sandboxId) ;; ret {| id := v |}.

Definition sandboxes_shutdown (sandboxId : string) : M unit :=
  _ <- perform (SandboxesShutdown sandboxId) ;; ret tt.

Definition connect (sandbox : Sandbox) : M Client :=
  _ <- perform (SandboxConnect (id sandbox)) ;; ret {| client_of := sandbox |}.

Definition commands_run (client : Client) (c : Cmd) : M string :=
  perform (CommandsRun c).

Definition readTextFile (client : Client) (file : string) : M string :=
  perform (FsReadTextFile file).

Definition writeTextFile (client : Client) (file text : string) : M unit :=
  _ <- perform (FsWriteTextFile file text) ;; ret tt.

(* ================================================================= *)
(** ** The regular expressions of the source *)

Definition not_slash (c : ascii) : bool := negb (Ascii.eqb c "/").
Definition not_space (c : ascii) : bool := negb (is_space c).

(** [/github\.com\/([^\/]+)\/([^\/]+)(?:\.git)?(?:\/)?$/] *)
Definition repo_re : regex :=
  Seq (Lit "github.com/")
   (Seq (Group (PlusClass not_slash))
    (Seq (Lit "/")
     (Seq (Group (PlusClass not_slash))
      (Seq (Opt (Lit ".git"))
       (Seq (Opt (Lit "/")) Eos))))).

(** [/\.git$/] *)
Definition git_suffix_re : regex := Seq (Lit ".git") Eos.

(** [/https:\/\/github\.com\/[^\s]+/] *)
Definition pr_url_re : regex :=
  Seq (Lit "https://github.com/") (PlusClass not_space).

(* ================================================================= *)
(** ** The workflow *)

Definition failure (msg : string) : CreatePRResult :=
  {| success := false; data := None; error := Some msg |}.

(** The owner and the repository name of a URL: groups 1 and 2 of the
    match, each without a final [.git] and in lower case. *)
Definition parse_repo (repoMatch : MatchResult) : string * string :=
  let owner := nth 0 (m_groups repoMatch) "" in
  let repoName := nth 1 (m_groups repoMatch) "" in
  let repoName := toLowerCase (replace git_suffix_re "" repoName) in
  let owner := toLowerCase (replace git_suffix_re "" owner) in
  (owner, repoName).

(** Authenticate with GitHub (lines 73-81). *)
Definition authenticate (client : Client) (accessToken : string) : M unit :=
  _ <- commands_run client (GhAuthLogin accessToken) ;;
  _ <- commands_run client GhAuthSetupGit ;;
  _ <- commands_run client GitConfigUserName ;;
  _ <- commands_run client GitConfigUserEmail ;;
  ret tt.

(** Get authenticated user info (lines 83-88). *)
Definition get_authenticated_username (client : Client) : M string :=
  userInfoResult <- commands_run client GhApiUserLogin ;;
  _ <- console_log ["User info result:"; userInfoResult] ;;
  ret (toLowerCase (trim userInfoResult)).

Definition error_message (e : Thrown) (otherwise : string) : string :=
  match e with
  | ErrorObject message => message
  | NotAnError => otherwise
  end.

(** Check if user owns the repository (lines 90-120); yields
    [workingRepoUrl], [forked] and [forkUrl]. *)
Definition resolve_fork (client : Client) (repoUrl owner repoName
    authenticatedUsername : string) : M (string * bool * string) :=
  let isOwner := (owner =? authenticatedUsername)%string in
  if negb isOwner then
    try_catch
      (let forkUrl := "https://github.com/" ++ authenticatedUsername ++ "/" ++ repoName in
       _ <- console_log ["Forked repository:"; forkUrl] ;;
       ret (forkUrl, true, forkUrl))
      (fun error =>
         try_catch
           (_ <- commands_run client (GhRepoView authenticatedUsername repoName) ;;
            let forkUrl := "https://github.com/" ++ authenticatedUsername ++ "/" ++ repoName in
            _ <- console_log ["Using existing fork:"; forkUrl] ;;
            ret (forkUrl, true, forkUrl))
           (fun _ =>
              return_ (failure
                ("Failed to fork repository and no existing fork found: " ++
                 error_message error "Unknown error"))))
  else ret (repoUrl, false, "").

(** Clone the repository (original or fork) if it does not exist
    (lines 122-180). *)
Definition ensure_clone (client : Client) (repoDir workingRepoUrl repoUrl : string)
    (forked : bool) : M unit :=
  directoryExists <-
    try_catch
      (testResult <- commands_run client (TestDir repoDir) ;;
       ret (trim testResult =? "exists")%string)
      (fun _ => ret false) ;;
  directoryExists <-
    (if directoryExists : bool then
       try_catch
         (_ <- commands_run client (GitStatus repoDir) ;;
          _ <- console_log ["Using existing repository directory"] ;;
          _ <- (if forked then
                  _ <- try_catch
                         (_ <- commands_run client (GitRemoteSetUrlOrigin repoDir workingRepoUrl) ;;
                          ret tt)
                         (fun _ =>
                            _ <- commands_run client (GitRemoteAddOrigin repoDir workingRepoUrl) ;;
                            ret tt) ;;
                  try_catch
                    (_ <- commands_run client (GitRemoteAddUpstream repoDir repoUrl) ;;
                     ret tt)
                    (fun _ =>
                       _ <- commands_run client (GitRemoteSetUrlUpstream repoDir repoUrl) ;;
                       ret tt)
                else ret tt) ;;
          ret true)
         (fun _ =>
            _ <- console_log ["Removing invalid directory and cloning fresh"] ;;
            _ <- commands_run client (RmRf repoDir) ;;
            ret false)
     else ret false) ;;
  if negb directoryExists then
    _ <- commands_run client (GitClone workingRepoUrl repoDir) ;;
    if forked then
      _ <- commands_run client (GitRemoteAddUpstream repoDir repoUrl) ;;
      ret tt
    else ret tt
  else ret tt.

(** Switch to main branch and pull latest changes (lines 182-196). *)
Definition sync_main (client : Client) (repoDir : string) (forked : bool) : M unit :=
  _ <- commands_run client (GitCheckoutMain repoDir) ;;
  if forked then
    try_catch
      (_ <- commands_run client (GitFetchUpstream repoDir) ;;
       _ <- commands_run client (GitMergeUpstreamMain repoDir) ;;
       _ <- commands_run client (GitPushOriginMain repoDir) ;;
       ret tt)
      (fun error =>
         console_log ["Warning: Could not sync fork with upstream:"])
  else
    _ <- commands_run client (GitPullOriginMain repoDir) ;;
    ret tt.

(** Create a new branch (lines 198-200). *)
Definition branch_of_time (t : Z) : string := "code0-" ++ string_of_Z t.

Definition create_branch (client : Client) (repoDir : string) : M string :=
  t <- now ;;
  let branchName := branch_of_time t in
  _ <- commands_run client (GitCheckoutNewBranch repoDir branchName) ;;
  ret branchName.

(** The text appended to an existing README, after its old content. *)
Definition readme_update_section (generatedOn : string) : string :=
  nl ++ nl ++ "## AI Agent Update" ++ nl ++ nl ++
  "This update was made by an AI agent (code0) using the CodeSandbox API." ++
  nl ++ nl ++ "- Automated file modification" ++ nl ++
  "- Demonstration of AI-driven development workflow" ++ nl ++
  "- Generated on: " ++ generatedOn.

(** The text of a README created from nothing, after its title line. *)
Definition readme_create_section (generatedOn : string) : string :=
  nl ++ nl ++ "## AI Agent Update" ++ nl ++ nl ++
  "This repository was updated by an AI agent (code0) using the CodeSandbox API." ++
  nl ++ nl ++ "- Automated file modification" ++ nl ++
  "- Demonstration of AI-driven development workflow" ++ nl ++
  "- Generated on: " ++ generatedOn.

Definition readme_path (repoDir : string) : string := "./" ++ repoDir ++ "/README.md".

(** [for (const change of fileChanges) await client.fs.writeTextFile(...)] *)
Fixpoint write_changes (client : Client) (repoDir : string)
    (changes : list FileChange) : M unit :=
  match changes with
  | [] => ret tt
  | change :: rest =>
      _ <- writeTextFile client (repoDir ++ "/" ++ path change) (content change) ;;
      write_changes client repoDir rest
  end.

(** Default: update README.md if no specific changes provided
    (lines 211-222). *)
Definition update_readme (client : Client) (repoDir repoName : string) : M unit :=
  try_catch
    (readmeResult <- readTextFile client (readme_path repoDir) ;;
     t <- now ;;
     let readmeUpdated := readmeResult ++ readme_update_section (toISOString t) in
     writeTextFile client (readme_path repoDir) readmeUpdated)
    (fun _ =>
       t <- now ;;
       let readmeContent := "# " ++ repoName ++ readme_create_section (toISOString t) in
       writeTextFile client (readme_path repoDir) readmeContent).

(** Apply file changes (lines 202-223). *)
Definition apply_changes (client : Client) (repoDir repoName : string)
    (fileChanges : list FileChange) : M unit :=
  if (0 <? List.length fileChanges)%nat then write_changes client repoDir fileChanges
  else update_readme client repoDir repoName.

(** Stage changes, commit with the co-author trailer, push the branch
    (lines 225-244). *)
Definition commit_and_push (client : Client) (repoDir authenticatedUsername
    commitMessage branchName : string) : M unit :=
  _ <- commands_run client (GitAddAll repoDir) ;;
  userEmailResult <- commands_run client (GhApiUserEmail repoDir) ;;
  let userEmail := remove_char (ascii_of_nat 34) (trim userEmailResult) in
  let coAuthor := authenticatedUsername ++ " <" ++ userEmail ++ ">" in
  let fullCommitMessage := commitMessage ++ nl ++ nl ++ "Co-authored-by: " ++ coAuthor in
  _ <- commands_run client (GitCommit repoDir fullCommitMessage) ;;
  _ <- commands_run client (GitPushSetUpstream repoDir branchName) ;;
  ret tt.

(** Extract PR URL from result (lines 266-270). *)
Definition extract_pr_url (prResult owner repoName : string) : string :=
  match exec pr_url_re prResult with
  | Some prUrlMatch => m_whole prUrlMatch
  | None => "https://github.com/" ++ owner ++ "/" ++ repoName ++ "/pulls"
  end.

(** Create PR (lines 246-264). *)
Definition create_pr (client : Client) (repoDir prTitle prBody
    authenticatedUsername owner repoName branchName : string)
    (forked : bool) (forkUrl : string) : M string :=
  t <- now ;;
  let fullPrBody :=
    prBody ++ nl ++ nl ++ "### Technical Details:" ++ nl ++
    "- **Commit Author**: code0 (AI Agent)" ++ nl ++
    "- **PR Creator**: " ++ authenticatedUsername ++ " (via personal access token)" ++ nl ++
    "- **Generated**: " ++ toISOString t ++ nl ++
    "- **Repository**: " ++ owner ++ "/" ++ repoName ++ nl ++
    "- **Branch**: " ++ branchName in
  let fullPrBody :=
    if forked then
      fullPrBody ++ nl ++ "- **Fork**: " ++ forkUrl ++ nl ++ "- **Created from fork**: Yes"
    else fullPrBody in
  prResult <-
    (if forked then
       commands_run client
         (GhPrCreateFromFork repoDir prTitle fullPrBody authenticatedUsername
            branchName owner repoName)
     else
       commands_run client (GhPrCreate repoDir prTitle fullPrBody branchName)) ;;
  ret (extract_pr_url prResult owner repoName).

(** [!accessToken]: an unset variable and the empty text are both falsy. *)
Definition falsy (v : option string) : bool :=
  match v with
  | None => true
  | Some s => (s =? "")%string
  end.

Definition the_sandbox : string := "wmwx2g".

(** The body of the [try] block (lines 42-284). *)
Definition createGitHubPR_try (env : Env) (repoUrl commitMessage prTitle prBody : string)
    (fileChanges : list FileChange) : M CreatePRResult :=
  let accessToken := GITHUB_PERSONAL_ACCESS_TOKEN env in
  if falsy accessToken then
    return_ (failure "GITHUB_PERSONAL_ACCESS_TOKEN environment variable is required")
  else
  let accessToken := match accessToken with Some s => s | None => "" end in
  match exec repo_re repoUrl with
  | None => return_ (failure "Invalid GitHub repository URL format")
  | Some repoMatch =>
  let '(owner, repoName) := parse_repo repoMatch in
  sandbox <- sandboxes_resume the_sandbox ;;
  client <- connect sandbox ;;
  _ <- authenticate client accessToken ;;
  authenticatedUsername <- get_authenticated_username client ;;
  '(workingRepoUrl, forked, forkUrl) <-
      resolve_fork client repoUrl owner repoName authenticatedUsername ;;
  let repoDir := repoName in
  _ <- ensure_clone client repoDir workingRepoUrl repoUrl forked ;;
  _ <- sync_main client repoDir forked ;;
  branchName <- create_branch client repoDir ;;
  _ <- apply_changes client repoDir repoName fileChanges ;;
  _ <- commit_and_push client repoDir authenticatedUsername commitMessage branchName ;;
  prUrl <- create_pr client repoDir prTitle prBody authenticatedUsername owner
             repoName branchName forked forkUrl ;;
  _ <- sandboxes_shutdown (id sandbox) ;;
  return_ {| success := true;
             data := Some {| prUrl := prUrl;
                             branchName := branchName;
                             sandboxId := id sandbox;
                             forked := Some forked;
                             forkUrl := if forked then Some forkUrl else None |};
             error := None |}
  end.

(** The [catch] clause of the function (lines 285-290). *)
Definition createGitHubPR_catch (error : Thrown) : M CreatePRResult :=
  return_ (failure (error_message error "Unknown error occurred")).

Definition settle (c : Completion CreatePRResult) : Settled :=
  match c with
  | Normal r => Fulfilled r
  | Return r => Fulfilled r
  | Throw e => RejectedWith e
  end.

Definition or_default (v : option string) (d : string) : string :=
  match v with Some s => s | None => d end.

(** The [try] block of a call: the options destructured, with the defaults
    of the absent ones (lines 34-40). *)
Definition try_block (options : CreatePROptions) (env : Env) : M CreatePRResult :=
  createGitHubPR_try env (repoUrl options)
    (or_default (commitMessage options) "feat: Automated update via AI agent")
    (or_default (prTitle options) "🤖 AI Agent Update: Automated changes")
    (or_default (prBody options) "This PR was automatically created by an AI agent.")
    (match fileChanges options with Some l => l | None => [] end).

(** [createGitHubPR]: the [try] block under the [catch] clause.  The result
    is how the promise settles, with the events of the call. *)
Definition createGitHubPR (options : CreatePROptions) (env : Env)
    : World -> Settled * list Event :=
  fun w =>
    let (c, evs) := try_catch (try_block options env) createGitHubPR_catch w in
    (settle c, evs).

(* ================================================================= *)
(** ** The function and its [try] block *)

(** The result the [catch] clause builds from a thrown value. *)
Definition caught (e : Thrown) : CreatePRResult :=
  failure (error_message e "Unknown error occurred").

(** What the function resolves to, from the completion of its [try] block. *)
Definition result_of (c : Completion CreatePRResult) : CreatePRResult :=
  match c with
  | Normal r => r
  | Return r => r
  | Throw e => caught e
  end.

(** The owner and the repository name the workflow works with, when the
    URL is accepted. *)
Definition parse_url (url : string) : option (string * string) :=
  match exec repo_re url with
  | Some repoMatch => Some (parse_repo repoMatch)
  | None => None
  end.

(* ================================================================= *)
(** ** Judgments on computations *)

(** Every event a computation adds satisfies [P], however it completes. *)
Definition emits {A : Type} (P : Event -> Prop) (m : M A) : Prop :=
  forall w, Forall P (snd (m w)).

(** Every result a computation hands to a [return] statement satisfies [R]. *)
Definition returns {A : Type} (R : CreatePRResult -> Prop) (m : M A) : Prop :=
  forall w r, fst (m w) = Return r -> R r.

(** A rejected operation of class [fatal] ends the computation with the
    rejection's reason as the thrown value. *)
Definition escalates {A : Type} (fatal : Op -> bool) (m : M A) : Prop :=
  forall w op e,
    In (Performed op (Rejected e)) (snd (m w)) -> fatal op = true ->
    fst (m w) = Throw e.

(* ================================================================= *)
(** ** Text predicates used in the statements *)

(** Every character of [s] satisfies [p]. *)
Fixpoint all_chars (p : ascii -> bool) (s : string) : bool :=
  match s with
  | EmptyString => true
  | String c s' => p c && all_chars p s'
  end.


(** [s] without a final [.git], as a function on the text alone: the
    characters are kept until only [.git] is left. *)
Fixpoint chop_git (s : string) : string :=
  match s with
  | EmptyString => EmptyString
  | String c s' => if (s =? ".git")%string then EmptyString else String c (chop_git s')
  end.



(** [s'] is what is left of [s] after some first part. *)
Definition suffix_of (s' s : string) : Prop := exists m, s = m ++ s'.

(** A GitHub URL in the sense of the pattern applied to the output of the
    pull-request command: [https://github.com/] and at least one character
    that is not white space. *)
Definition github_url (u : string) : Prop :=
  exists run, u = "https://github.com/" ++ run /\ run <> "" /\ all_chars not_space run = true.

(** The text [rest] does not continue a run of characters without white
    space. *)
Definition ends_run (rest : string) : Prop :=
  match rest with
  | EmptyString => True
  | String c _ => is_space c = true
  end.

(** A GitHub URL starts in [out] right after [before]. *)
Definition url_starts_after (out before : string) : Prop :=
  exists c rest,
    out = before ++ "https://github.com/" ++ String c rest /\ is_space c = false.

(** [u] is the first GitHub URL of [out]: it stands in [out], extends to
    the next white space, and no GitHub URL starts before it. *)
Definition first_github_url (out u : string) : Prop :=
  exists before rest,
    out = before ++ u ++ rest /\ github_url u /\ ends_run rest /\
    forall before', url_starts_after out before' -> (length before <= length before')%nat.

(** [out] has no GitHub URL. *)
Definition no_github_url (out : string) : Prop :=
  forall before, ~ url_starts_after out before.

(* ================================================================= *)
(** ** Classes of events *)

(** The probe of an existing fork. *)
Definition is_fork_probe (e : Event) : bool :=
  match e with
  | Performed (CommandsRun (GhRepoView _ _)) _ => true
  | _ => false
  end.


(** The creation of a fresh sandbox. *)
Definition is_sandbox_creation (e : Event) : bool :=
  match e with
  | Performed (SandboxesCreate _) _ => true
  | _ => false
  end.




(** The operations of the file API. *)
Definition is_fs (e : Event) : bool :=
  match e with
  | Performed (FsReadTextFile _) _ => true
  | Performed (FsWriteTextFile _ _) _ => true
  | _ => false
  end.



(** The command that opens the pull request. *)
Definition is_pr_create (e : Event) : bool :=
  match e with
  | Performed (CommandsRun (GhPrCreate _ _ _ _)) _ => true
  | Performed (CommandsRun (GhPrCreateFromFork _ _ _ _ _ _ _)) _ => true
  | _ => false
  end.

(** The operations that stand outside every inner [try] block wherever the
    workflow uses them: a rejection of one of them is never tolerated. *)
Definition always_fatal (op : Op) : bool :=
  match op with
  | SandboxesResume _ | SandboxConnect _ | SandboxesShutdown _ => true
  | CommandsRun c =>
      match c with
      | GhAuthLogin _ | GhAuthSetupGit | GitConfigUserName | GitConfigUserEmail
      | GhApiUserLogin | RmRf _ | GitClone _ _ | GitCheckoutMain _
      | GitPullOriginMain _ | GitCheckoutNewBranch _ _ | GitAddAll _
      | GhApiUserEmail _ | GitCommit _ _ | GitPushSetUpstream _ _
      | GhPrCreateFromFork _ _ _ _ _ _ _ | GhPrCreate _ _ _ _ => true
      | _ => false
      end
  | _ => false
  end.

(** An operation was rejected during the run. *)
Definition some_rejection (evs : list Event) : Prop :=
  exists op e, In (Performed op (Rejected e)) evs.

(* ================================================================= *)
(** ** Statements about results *)

(** The shape of a result: a success carries [data] and no [error], with
    [forkUrl] defined exactly when [forked] is true; a failure carries
    [error] and no [data]. *)
Definition well_formed (r : CreatePRResult) : Prop :=
  if success r then
    error r = None /\
    exists d, data r = Some d /\ (forkUrl d <> None <-> forked d = Some true)
  else
    data r = None /\ exists msg, error r = Some msg.

(** The number in a branch name [code0-<integer>]. *)
Definition branch_number (branch : string) : option Z :=
  match strip_prefix "code0-" branch with
  | Some digits => option_map Z.of_int (NilZero.int_of_string digits)
  | None => None
  end.


(** The platform resumes the sandbox it is asked for. *)
Definition resumes_requested (w : World) : Prop :=
  forall h i v, respond w h (SandboxesResume i) = Resolved v -> v = i.




(* ================================================================= *)
(** ** Concrete worlds *)

(** A platform whose answers depend on the operation alone, with a clock
    that advances by one millisecond per event. *)
Definition scripted (answers : Op -> Reply) (start : Z) : World :=
  {| trace := [];
     respond := fun _ op => answers op;
     time := fun h => (start + Z.of_nat (List.length h))%Z |}.

(** The token holder is [cuevaio]; nothing is cloned yet; the repository
    has no README; the pull request is number 12. *)
Definition answers_cuevaio (op : Op) : Reply :=
  match op with
  | SandboxesResume i => Resolved i
  | CommandsRun GhApiUserLogin => Resolved ("cuevaio" ++ nl)
  | CommandsRun (TestDir _) => Resolved ("not_exists" ++ nl)
  | CommandsRun (GhApiUserEmail _) => Resolved ("cuevaio@users.noreply.github.com" ++ nl)
  | CommandsRun (GhPrCreateFromFork _ _ _ _ _ _ _) =>
      Resolved ("https://github.com/railly/tinte/pull/12" ++ nl)
  | CommandsRun (GhPrCreate _ _ _ _) =>
      Resolved ("https://github.com/cuevaio/pdf-to-html/pull/12" ++ nl)
  | FsReadTextFile _ => Rejected (ErrorObject "ENOENT: no such file or directory")
  | _ => Resolved ""
  end.

(** The same platform with a README in place. *)
Definition answers_with_readme (op : Op) : Reply :=
  match op with
  | FsReadTextFile _ => Resolved "# tinte"
  | _ => answers_cuevaio op
  end.

(** A platform that cannot resume the sandbox and says nothing about why. *)
Definition answers_silent_failure (op : Op) : Reply :=
  match op with
  | SandboxesResume _ => Rejected (ErrorObject "")
  | _ => answers_cuevaio op
  end.

Definition world_cuevaio : World := scripted answers_cuevaio 1700000000000.
Definition world_silent_failure : World := scripted answers_silent_failure 1700000000000.

Definition env_with_token : Env := {| GITHUB_PERSONAL_ACCESS_TOKEN := Some "ghp_token" |}.

(** The call of [createPRExample], with a fixed text for the note. *)
Definition options_example : CreatePROptions :=
  {| repoUrl := "https://github.com/railly/tinte";
     commitMessage := None;
     prTitle := Some "AI Agent Update: Enhanced documentation";
     prBody := Some "This PR demonstrates automated GitHub workflow using AI agents.";
     fileChanges := Some [ {| path := "AI_NOTES.md"; content := "# AI Agent Notes" |} ] |}.

(** A call with the URL alone. *)
Definition options_url (url : string) : CreatePROptions :=
  {| repoUrl := url; commitMessage := None; prTitle := None; prBody := None;
     fileChanges := None |}.



(** The text last written to [file] in a history, if any. *)
Fixpoint last_write (file : string) (h : list Event) : option string :=
  match h with
  | [] => None
  | Performed (FsWriteTextFile f text) (Resolved _) :: rest =>
      match last_write file rest with
      | Some later => Some later
      | None => if (f =? file)%string then Some text else None
      end
  | _ :: rest => last_write file rest
  end.

(** A platform that remembers the files written so far: a read returns the
    last text written to the file and is rejected for a file never written. *)
Definition world_with_files : World :=
  {| trace := [];
     respond := fun h op =>
       match op with
       | FsReadTextFile file =>
           match last_write file h with
           | Some text => Resolved text
           | None => Rejected (ErrorObject "ENOENT: no such file or directory")
           end
       | _ => answers_cuevaio op
       end;
     time := fun h => (1700000000000 + Z.of_nat (List.length h))%Z |}.

(** The texts written to [file] during a run, in order. *)
Fixpoint written_to (file : string) (evs : list Event) : list string :=
  match evs with
  | [] => []
  | Performed (FsWriteTextFile f text) _ :: rest =>
      if (f =? file)%string then text :: written_to file rest else written_to file rest
  | _ :: rest => written_to file rest
  end.

(* ================================================================= *)
(** ** Further classes of events *)

(** The shutdown of a sandbox. *)
Definition is_shutdown (e : Event) : bool :=
  match e with
  | Performed (SandboxesShutdown _) _ => true
  | _ => false
  end.

(** The operations that set the session up: resuming and connecting the
    sandbox, and the four commands that authenticate git and the CLI. *)
Definition is_setup (e : Event) : bool :=
  match e with
  | Performed (SandboxesResume _) _ => true
  | Performed (SandboxConnect _) _ => true
  | Performed (CommandsRun (GhAuthLogin _)) _ => true
  | Performed (CommandsRun GhAuthSetupGit) _ => true
  | Performed (CommandsRun GitConfigUserName) _ => true
  | Performed (CommandsRun GitConfigUserEmail) _ => true
  | _ => false
  end.

(** The commands of the clone-or-repair stage. *)
Definition is_clone_stage (e : Event) : bool :=
  match e with
  | Performed (CommandsRun c) _ =>
      match c with
      | TestDir _ | GitStatus _ | RmRf _ | GitClone _ _
      | GitRemoteSetUrlOrigin _ _ | GitRemoteAddOrigin _ _
      | GitRemoteAddUpstream _ _ | GitRemoteSetUrlUpstream _ _ => true
      | _ => false
      end
  | _ => false
  end.

(** The removal of a directory, and the clone. *)
Definition is_removal (e : Event) : bool :=
  match e with
  | Performed (CommandsRun (RmRf _)) _ => true
  | _ => false
  end.

Definition is_clone (e : Event) : bool :=
  match e with
  | Performed (CommandsRun (GitClone _ _)) _ => true
  | _ => false
  end.

(** The checkout of the main branch, the first command after the
    clone-or-repair stage. *)
Definition is_checkout_main (e : Event) : bool :=
  match e with
  | Performed (CommandsRun (GitCheckoutMain _)) _ => true
  | _ => false
  end.

(** The directory test answered that the directory exists. *)
Definition test_said_exists (dir : string) (evs : list Event) : Prop :=
  exists out,
    In (Performed (CommandsRun (TestDir dir)) (Resolved out)) evs /\
    trim out = "exists".

(** What the clone-or-repair stage guarantees of its completion [c] and
    its events [evs]: a directory is removed only after the test found it
    and a resolved removal is followed by a clone; after a normal
    completion the repository was cloned, or the directory was found, is a
    git repository and was neither removed nor cloned over; and a remote
    update that fails for good leads to the removal. *)
Definition clone_stage_facts (dir working upstream : string)
    (c : Completion unit) (evs : list Event) : Prop :=
  (forall r, In (Performed (CommandsRun (RmRf dir)) r) evs ->
             test_said_exists dir evs) /\
  (forall v, In (Performed (CommandsRun (RmRf dir)) (Resolved v)) evs ->
             exists r, In (Performed (CommandsRun (GitClone working dir)) r) evs) /\
  (c = Normal tt ->
     (exists v, In (Performed (CommandsRun (GitClone working dir)) (Resolved v)) evs) \/
     (test_said_exists dir evs /\
      (exists v, In (Performed (CommandsRun (GitStatus dir)) (Resolved v)) evs) /\
      Forall (fun e => is_removal e = false /\ is_clone e = false) evs)) /\
  (forall d url e,
     In (Performed (CommandsRun (GitRemoteAddOrigin d url)) (Rejected e)) evs \/
     In (Performed (CommandsRun (GitRemoteSetUrlUpstream d url)) (Rejected e)) evs ->
     exists r, In (Performed (CommandsRun (RmRf dir)) r) evs) /\
  Forall (fun e => is_clone_stage e = true) evs.


(** The repository is there, but its [origin] remote can neither be set
    nor added. *)
Definition answers_origin_locked (op : Op) : Reply :=
  match op with
  | CommandsRun (TestDir _) => Resolved ("exists" ++ nl)
  | CommandsRun (GitRemoteSetUrlOrigin _ _) => Rejected (ErrorObject "error: No such remote")
  | CommandsRun (GitRemoteAddOrigin _ _) => Rejected (ErrorObject "error: could not lock config")
  | _ => answers_cuevaio op
  end.

(** The repository is there and in order; the upstream cannot be fetched. *)
Definition answers_reuse (op : Op) : Reply :=
  match op with
  | CommandsRun (TestDir _) => Resolved ("exists" ++ nl)
  | CommandsRun (GitFetchUpstream _) => Rejected (ErrorObject "fatal: unable to access")
  | _ => answers_cuevaio op
  end.

Definition world_origin_locked : World := scripted answers_origin_locked 1700000000000.
Definition world_reuse : World := scripted answers_reuse 1700000000000.

(** The three commands that synchronise a fork with its upstream. *)
Definition is_sync (e : Event) : bool :=
  match e with
  | Performed (CommandsRun (GitFetchUpstream _)) _ => true
  | Performed (CommandsRun (GitMergeUpstreamMain _)) _ => true
  | Performed (CommandsRun (GitPushOriginMain _)) _ => true
  | _ => false
  end.

Definition is_rejected (e : Event) : bool :=
  match e with
  | Performed _ (Rejected _) => true
  | _ => false
  end.

(** What the synchronisation stage guarantees: a rejected fetch, merge or
    push of the main branch is the last event of the stage and leaves the
    stage completed normally. *)
Definition sync_stage_facts (c : Completion unit) (evs : list Event) : Prop :=
  forall e, In e evs -> is_sync e = true -> is_rejected e = true ->
            c = Normal tt /\ exists before, evs = (before ++ [e])%list.


(** The commands of the commit stage. *)
Definition is_publish (e : Event) : bool :=
  match e with
  | Performed (CommandsRun (GitAddAll _)) _ => true
  | Performed (CommandsRun (GhApiUserEmail _)) _ => true
  | Performed (CommandsRun (GitCommit _ _)) _ => true
  | Performed (CommandsRun (GitPushSetUpstream _ _)) _ => true
  | _ => false
  end.

(** The co-author trailer: the user, and the address the CLI printed,
    trimmed and without double quotes. *)
Definition co_author_trailer (user emailOutput : string) : string :=
  "Co-authored-by: " ++ user ++ " <" ++
  remove_char (ascii_of_nat 34) (trim emailOutput) ++ ">".

(** The events of the commit stage: staging, the query of the address, the
    commit with the trailer and the push, each run only when the one
    before it was resolved. *)
Definition commit_stage_events (dir user msg branch : string)
    (c : Completion unit) (evs : list Event) : Prop :=
  (exists e, c = Throw e /\
     evs = [Performed (CommandsRun (GitAddAll dir)) (Rejected e)]) \/
  (exists v1 e, c = Throw e /\
     evs = [Performed (CommandsRun (GitAddAll dir)) (Resolved v1);
            Performed (CommandsRun (GhApiUserEmail dir)) (Rejected e)]) \/
  (exists v1 out r rest,
     evs = Performed (CommandsRun (GitAddAll dir)) (Resolved v1)
           :: Performed (CommandsRun (GhApiUserEmail dir)) (Resolved out)
           :: Performed (CommandsRun
                (GitCommit dir (msg ++ nl ++ nl ++ co_author_trailer user out))) r
           :: rest /\
     match r with
     | Rejected e => c = Throw e /\ rest = []
     | Resolved _ =>
         exists r', rest = [Performed (CommandsRun (GitPushSetUpstream dir branch)) r'] /\
                    match r' with
                    | Rejected e => c = Throw e
                    | Resolved _ => c = Normal tt
                    end
     end).

(** The head branch of a pull-request command. *)
Definition pr_head (e : Event) : option string :=
  match e with
  | Performed (CommandsRun (GhPrCreate _ _ _ branch)) _ => Some branch
  | Performed (CommandsRun (GhPrCreateFromFork _ _ _ _ branch _ _)) _ => Some branch
  | _ => None
  end.

(** The commands run inside the sandbox. *)
Definition is_command (e : Event) : bool :=
  match e with
  | Performed (CommandsRun _) _ => true
  | _ => false
  end.


(** The directory a command works in: the one it enters with [cd], tests,
    removes or clones into. *)
Definition command_dir (c : Cmd) : option string :=
  match c with
  | GhAuthLogin _ | GhAuthSetupGit | GitConfigUserName | GitConfigUserEmail
  | GhApiUserLogin | GhRepoView _ _ => None
  | TestDir dir | GitStatus dir | RmRf dir | GitCheckoutMain dir
  | GitFetchUpstream dir | GitMergeUpstreamMain dir | GitPushOriginMain dir
  | GitPullOriginMain dir | GitAddAll dir | GhApiUserEmail dir => Some dir
  | GitRemoteSetUrlOrigin dir _ | GitRemoteAddOrigin dir _
  | GitRemoteAddUpstream dir _ | GitRemoteSetUrlUpstream dir _
  | GitCheckoutNewBranch dir _ | GitCommit dir _ | GitPushSetUpstream dir _ => Some dir
  | GitClone _ dir => Some dir
  | GhPrCreateFromFork dir _ _ _ _ _ _ | GhPrCreate dir _ _ _ => Some dir
  end.

(** The URL a command gives to the [upstream] remote. *)
Definition upstream_url_of (c : Cmd) : option string :=
  match c with
  | GitRemoteAddUpstream _ url | GitRemoteSetUrlUpstream _ url => Some url
  | _ => None
  end.

(** The file of an operation of the file API. *)
Definition file_of (op : Op) : option string :=
  match op with
  | FsReadTextFile file | FsWriteTextFile file _ => Some file
  | _ => None
  end.

(** An event that stays within the directory [dir]: a command that works in
    a directory works in [dir], a file operation names a file under [dir]
    (written [dir/...] or [./dir/...]), and an [upstream] remote gets the
    URL [upstream]. *)
Definition stays_within (dir upstream : string) (e : Event) : Prop :=
  match e with
  | Performed op _ =>
      (forall c d, op = CommandsRun c -> command_dir c = Some d -> d = dir) /\
      (forall c url, op = CommandsRun c -> upstream_url_of c = Some url ->
                     url = upstream) /\
      (forall file, file_of op = Some file ->
         exists rest, file = dir ++ "/" ++ rest \/ file = "./" ++ dir ++ "/" ++ rest)
  | ClockRead _ => True
  end.

(** The step of the workflow an operation belongs to, numbered in the
    order of the program text. *)
Definition stage_of (op : Op) : nat :=
  match op with
  | SandboxesCreate _ | SandboxesResume _ => 0
  | SandboxConnect _ => 1
  | CommandsRun c =>
      match c with
      | GhAuthLogin _ | GhAuthSetupGit | GitConfigUserName | GitConfigUserEmail => 2
      | GhApiUserLogin => 3
      | GhRepoView _ _ => 4
      | TestDir _ | GitStatus _ | GitRemoteSetUrlOrigin _ _ | GitRemoteAddOrigin _ _
      | GitRemoteAddUpstream _ _ | GitRemoteSetUrlUpstream _ _ | RmRf _
      | GitClone _ _ => 5
      | GitCheckoutMain _ | GitFetchUpstream _ | GitMergeUpstreamMain _
      | GitPushOriginMain _ | GitPullOriginMain _ => 6
      | GitCheckoutNewBranch _ _ => 7
      | GitAddAll _ | GhApiUserEmail _ | GitCommit _ _ | GitPushSetUpstream _ _ => 9
      | GhPrCreateFromFork _ _ _ _ _ _ _ | GhPrCreate _ _ _ _ => 10
      end
  | FsReadTextFile _ | FsWriteTextFile _ _ => 8
  | SandboxesShutdown _ => 11
  end.

(** The steps of the operations of a history, in order. *)
Fixpoint stages (evs : list Event) : list nat :=
  match evs with
  | [] => []
  | Performed op _ :: rest => stage_of op :: stages rest
  | ClockRead _ :: rest => stages rest
  end.

Fixpoint ascending (l : list nat) : bool :=
  match l with
  | [] => true
  | x :: rest =>
      match rest with
      | [] => true
      | y :: _ => (x <=? y)%nat && ascending rest
      end
  end.

(** All operations of [e] belong to step [k]. *)
Definition in_stage (k : nat) (e : Event) : Prop :=
  forall op r, e = Performed op r -> stage_of op = k.

(** The operations of [m] come in the order of their steps, none before
    step [k]. *)
Definition ordered_from {A : Type} (k : nat) (m : M A) : Prop :=
  forall w, ascending (k :: stages (snd (m w))) = true.

(** A computation that throws does so at a rejected operation, which is
    the last thing it did. *)
Definition stops_at_rejection {A : Type} (m : M A) : Prop :=
  forall w e, fst (m w) = Throw e ->
    exists pre op, snd (m w) = (pre ++ [Performed op (Rejected e)])%list.

(** A platform on which the push of the branch is refused. *)
Definition answers_push_denied (op : Op) : Reply :=
  match op with
  | CommandsRun (GitPushSetUpstream _ _) =>
      Rejected (ErrorObject "remote: Permission denied")
  | _ => answers_cuevaio op
  end.

Definition world_push_denied : World := scripted answers_push_denied 1700000000000.

(** The note the example adds, with the time of its creation (line 302). *)
Definition example_note (t : Z) : string :=
  "# AI Agent Notes" ++ nl ++ nl ++
  "This file was created by an AI agent to demonstrate automated workflows." ++
  nl ++ nl ++ "Created: " ++ toISOString t ++ nl.

(** The argument of the call in [createPRExample] (lines 295-305). *)
Definition createPRExample_options (t : Z) : CreatePROptions :=
  {| repoUrl := "https://github.com/railly/tinte";
     commitMessage := None;
     prTitle := Some "🤖 AI Agent Update: Enhanced documentation";
     prBody := Some "This PR demonstrates automated GitHub workflow using AI agents.";
     fileChanges := Some [ {| path := "AI_NOTES.md"; content := example_note t |} ] |}.

(** [createPRExample] (lines 294-309): the argument is built first, which
    reads the clock for the note; the call is awaited; its result is logged
    and returned. *)
Definition createPRExample (env : Env) : World -> Settled * list Event :=
  fun w =>
    let t := time w (trace w) in
    let (result, evs) :=
      createGitHubPR (createPRExample_options t) env (extend w [ClockRead t]) in
    (result, ClockRead t :: evs).

(** A write through the file API. *)
Definition is_write (e : Event) : bool :=
  match e with
  | Performed (FsWriteTextFile _ _) _ => true
  | _ => false
  end.

(** A platform with a README whose first write is refused; later writes
    go through. *)
Definition world_write_refused_once : World :=
  {| trace := [];
     respond := fun h op =>
       match op with
       | FsWriteTextFile _ _ =>
           if existsb is_write h then Resolved ""
           else Rejected (ErrorObject "EACCES: permission denied")
       | _ => answers_with_readme op
       end;
     time := fun h => (1700000000000 + Z.of_nat (List.length h))%Z |}.

(* ================================================================= *)
(** * Properties *)

(** ** Text *)

Example trim_ex : trim (" cuevaio" ++ nl) = "cuevaio". Proof. reflexivity. Qed.
Example lower_ex : toLowerCase "Railly/Tinte-2" = "railly/tinte-2". Proof. reflexivity. Qed.
Example iso_ex : toISOString 1700000000000 = "2023-11-14T22:13:20.000Z". Proof. reflexivity. Qed.
Example iso_epoch : toISOString 0 = "1970-01-01T00:00:00.000Z". Proof. reflexivity. Qed.
Example iso_before_epoch : toISOString (-1) = "1969-12-31T23:59:59.999Z". Proof. reflexivity. Qed.
Example iso_leap_day : toISOString 951782400000 = "2000-02-29T00:00:00.000Z". Proof. reflexivity. Qed.
Example number_ex : string_of_Z 1700000000000 = "1700000000000". Proof. reflexivity. Qed.

Lemma append_assoc (a b c : string) : (a ++ b) ++ c = a ++ (b ++ c).
Proof. induction a as [| x a IH]; simpl; [reflexivity | now rewrite IH]. Qed.

Lemma append_nil_r (a : string) : a ++ "" = a.
Proof. induction a as [| x a IH]; simpl; [reflexivity | now rewrite IH]. Qed.

Lemma length_append (a b : string) : length (a ++ b) = (length a + length b)%nat.
Proof. induction a as [| x a IH]; simpl; [reflexivity | now rewrite IH]. Qed.

Lemma append_inv_head (a b c : string) : a ++ b = a ++ c -> b = c.
Proof. induction a as [| x a IH]; simpl; intros H; [exact H | injection H; auto]. Qed.

(** Two ways to cut one text at the same position agree. *)
Lemma append_same_length (a b a' b' : string) :
  a ++ b = a' ++ b' -> length a = length a' -> a = a' /\ b = b'.
Proof.
  revert a'. induction a as [| x a IH]; intros [| y a']; simpl; intros H L;
    try discriminate; auto.
  injection H as -> H. injection L as L.
  destruct (IH _ H L) as [-> ->]. auto.
Qed.

(** Of two prefixes of one text, the shorter is a prefix of the longer. *)
Lemma append_prefix_cases (a b a' b' : string) :
  a ++ b = a' ++ b' -> (length a <= length a')%nat ->
  exists d, a' = a ++ d /\ b = d ++ b'.
Proof.
  revert a'. induction a as [| x a IH]; intros a' H L; simpl in *.
  - exists a'. auto.
  - destruct a' as [| y a']; simpl in *; [lia |].
    injection H as -> H. destruct (IH a' H ltac:(lia)) as (d & -> & ->).
    exists d. auto.
Qed.

Lemma append_inv_tail (a b c : string) : a ++ c = b ++ c -> a = b.
Proof.
  intros H. apply (append_same_length a c b c H).
  apply (f_equal length) in H. rewrite !length_append in H. lia.
Qed.

Lemma take_app (a b : string) : take (length a) (a ++ b) = a.
Proof. induction a as [| x a IH]; simpl; [now destruct b | now rewrite IH]. Qed.

Lemma take_app_minus (a b : string) : take (length (a ++ b) - length b) (a ++ b) = a.
Proof.
  rewrite length_append. replace (length a + length b - length b)%nat with (length a) by lia.
  apply take_app.
Qed.

Lemma strip_prefix_app (l s : string) : strip_prefix l (l ++ s) = Some s.
Proof.
  induction l as [| a l IH]; simpl; [reflexivity |].
  rewrite Ascii.eqb_refl. exact IH.
Qed.

Lemma strip_prefix_sound (l s s' : string) : strip_prefix l s = Some s' -> s = l ++ s'.
Proof.
  revert s. induction l as [| a l IH]; simpl; intros s H.
  - now injection H.
  - destruct s as [| b s]; [discriminate |].
    destruct (Ascii.eqb_spec a b) as [-> |]; [| discriminate].
    now rewrite (IH _ H).
Qed.


(** ** The regular-expression engine *)

(** What remains after a repetition is a proper suffix, the consumed part
    is in the class. *)
Lemma plus_class_sound {R} p s (k : string -> option R) x :
  plus_class p s k = Some x ->
  exists s1 s2, s = s1 ++ s2 /\ s1 <> "" /\ all_chars p s1 = true /\ k s2 = Some x.
Proof.
  induction s as [| c s IH]; simpl; [discriminate |].
  destruct (p c) eqn:Hc; [| discriminate].
  destruct (plus_class p s k) as [y |] eqn:Hs.
  - intros [= <-]. destruct (IH eq_refl) as (s1 & s2 & -> & _ & H1 & H2).
    exists (String c s1), s2. simpl. rewrite Hc, H1. repeat split; auto. discriminate.
  - intros H. exists (String c ""), s. simpl. rewrite Hc. repeat split; auto. discriminate.
Qed.

(** The repetition is greedy: when the class ends where the run [o] ends
    and the rest of the pattern accepts from there, that is the match. *)
Lemma plus_class_greedy {R} p o rest (k : string -> option R) x :
  all_chars p o = true -> o <> "" ->
  match rest with EmptyString => True | String c _ => p c = false end ->
  k rest = Some x ->
  plus_class p (o ++ rest) k = Some x.
Proof.
  intros Ho Hne Hrest Hk. induction o as [| c o IH]; [contradiction |].
  simpl in *. apply andb_true_iff in Ho as [Hc Ho]. rewrite Hc.
  destruct o as [| c' o'].
  - simpl. destruct rest as [| d rest']; simpl.
    + exact Hk.
    + rewrite Hrest. exact Hk.
  - rewrite IH; auto. discriminate.
Qed.


(** The continuation of a match is called on a suffix of the text. *)
Lemma suffix_of_refl s : suffix_of s s.
Proof. exists "". reflexivity. Qed.

Lemma suffix_of_trans a b c : suffix_of a b -> suffix_of b c -> suffix_of a c.
Proof. intros [m ->] [n ->]. exists (n ++ m). now rewrite append_assoc. Qed.

Lemma mtch_suffix {R} r : forall s caps (k : string -> list string -> option R) x,
  mtch r s caps k = Some x ->
  exists s' caps', suffix_of s' s /\ k s' caps' = Some x.
Proof.
  induction r as [l | p | r IH | r IH | r1 IH1 r2 IH2 |]; simpl; intros s caps k x H.
  - destruct (strip_prefix l s) as [s' |] eqn:E; [| discriminate].
    apply strip_prefix_sound in E. exists s', caps. split; [exists l; exact E | exact H].
  - apply plus_class_sound in H as (s1 & s2 & -> & _ & _ & H).
    exists s2, caps. split; [exists s1; reflexivity | exact H].
  - destruct (mtch r s caps k) as [y |] eqn:E.
    + injection H as <-. apply IH in E. exact E.
    + exists s, caps. split; [apply suffix_of_refl | exact H].
  - apply IH in H as (s' & caps' & Hs & H). eauto.
  - apply IH1 in H as (s1 & caps1 & Hs1 & H).
    apply IH2 in H as (s2 & caps2 & Hs2 & H).
    exists s2, caps2. split; [eapply suffix_of_trans; eauto | exact H].
  - destruct s; [| discriminate]. exists "", caps. split; [apply suffix_of_refl | exact H].
Qed.

Lemma match_here_suffix r s rest caps :
  match_here r s = Some (rest, caps) -> suffix_of rest s.
Proof.
  unfold match_here. intros H.
  apply mtch_suffix in H as (s' & caps' & Hs & [= -> ->]). exact Hs.
Qed.

Lemma take_minus_suffix rest t :
  suffix_of rest t -> t = take (length t - length rest) t ++ rest.
Proof. intros [m ->]. now rewrite take_app_minus. Qed.

(** Where a search stops, the text before it has no match at any position,
    and the match starts there. *)
Lemma exec_from_sound r : forall s before m,
  exec_from r before s = Some m ->
  exists pre,
    s = pre ++ m_whole m ++ m_after m /\
    m_before m = before ++ pre /\
    match_here r (m_whole m ++ m_after m) = Some (m_after m, m_groups m) /\
    forall pre1 pre2, pre = pre1 ++ pre2 -> pre2 <> "" ->
      match_here r (pre2 ++ m_whole m ++ m_after m) = None.
Proof.
  assert (Hhere : forall s before rest caps,
            match_here r s = Some (rest, caps) ->
            let m := {| m_before := before;
                        m_whole := take (length s - length rest) s;
                        m_groups := caps; m_after := rest |} in
            exists pre,
              s = pre ++ m_whole m ++ m_after m /\
              m_before m = before ++ pre /\
              match_here r (m_whole m ++ m_after m) = Some (m_after m, m_groups m) /\
              forall pre1 pre2, pre = pre1 ++ pre2 -> pre2 <> "" ->
                match_here r (pre2 ++ m_whole m ++ m_after m) = None).
  { intros s before rest caps E. cbn [m_whole m_after m_before m_groups].
    rewrite <- (take_minus_suffix _ _ (match_here_suffix _ _ _ _ E)).
    exists "". simpl. rewrite append_nil_r. repeat split; auto.
    intros pre1 pre2 H1 H2. destruct pre1, pre2; try discriminate. contradiction. }
  induction s as [| c s IH]; intros before m H.
  - simpl in H. destruct (match_here r "") as [[rest caps] |] eqn:E; [| discriminate].
    injection H as <-. exact (Hhere "" before rest caps E).
  - simpl in H. destruct (match_here r (String c s)) as [[rest caps] |] eqn:E.
    + injection H as <-. exact (Hhere (String c s) before rest caps E).
    + apply IH in H as (pre & Hs & Hb & Hm & Hleft).
      exists (String c pre). simpl. rewrite <- Hs. rewrite Hb, append_assoc. simpl.
      repeat split; auto.
      intros pre1 pre2 H1 H2. destruct pre1 as [| a pre1]; simpl in H1.
      * subst pre2. simpl. rewrite <- Hs. exact E.
      * injection H1 as _ H1. eapply Hleft; eauto.
Qed.

(** A search finds nothing only where no position has a match. *)
Lemma exec_from_none r : forall s before,
  exec_from r before s = None ->
  forall pre t, s = pre ++ t -> match_here r t = None.
Proof.
  induction s as [| c s IH]; intros before H pre t E; simpl in H.
  - destruct pre; [| discriminate]. simpl in E. subst t.
    destruct (match_here r "") as [[? ?] |]; [discriminate | reflexivity].
  - destruct (match_here r (String c s)) as [[? ?] |] eqn:Em; [discriminate |].
    destruct pre as [| a pre]; simpl in E.
    + subst t. exact Em.
    + injection E as _ E. eapply IH; eauto.
Qed.

(** A match after a text without matches is the one the search returns. *)
Lemma exec_from_hit r : forall pre before t rest caps,
  (forall pre1 pre2, pre = pre1 ++ pre2 -> pre2 <> "" ->
     match_here r (pre2 ++ t) = None) ->
  match_here r t = Some (rest, caps) ->
  exec_from r before (pre ++ t) =
  Some {| m_before := before ++ pre;
          m_whole := take (length t - length rest) t;
          m_groups := caps;
          m_after := rest |}.
Proof.
  induction pre as [| c pre IH]; intros before t rest caps Hleft Hm; simpl.
  - rewrite append_nil_r. destruct t; simpl; simpl in Hm; rewrite Hm; reflexivity.
  - pose proof (Hleft "" (String c pre) eq_refl ltac:(discriminate)) as H0.
    change (String c pre ++ t) with (String c (pre ++ t)) in H0. rewrite H0.
    rewrite (IH (before ++ String c "") t rest caps); auto.
    + now rewrite append_assoc.
    + intros pre1 pre2 H1 H2. apply (Hleft (String c pre1) pre2); auto.
      simpl. now rewrite H1.
Qed.

(** ** The patterns of the source *)

(** *** [/\.git$/] *)





Lemma chop_git_other s : (forall t, s <> t ++ ".git") -> chop_git s = s.
Proof.
  induction s as [| c s IH]; intros H; [reflexivity |].
  cbn [chop_git].
  destruct (String.eqb_spec (String c s) ".git") as [E |].
  - exfalso. apply (H ""). exact E.
  - rewrite IH; [reflexivity |].
    intros t ->. apply (H (String c t)). reflexivity.
Qed.

Example chop_git_ex : chop_git "tinte.git" = "tinte" /\ chop_git "tinte" = "tinte".
Proof. split; reflexivity. Qed.

(** *** The repository URL *)







Example parse_url_ex1 :
  parse_url "https://github.com/Railly/Tinte.git" = Some ("railly", "tinte").
Proof. reflexivity. Qed.

Example parse_url_ex2 :
  parse_url "https://github.com/cuevaio/pdf-to-html/" = Some ("cuevaio", "pdf-to-html").
Proof. reflexivity. Qed.

Example parse_url_ex3 : parse_url "https://github.com/railly/tinte/pulls" = None.
Proof. reflexivity. Qed.

Example parse_url_ex4 : parse_url "git@github.com:railly/tinte.git" = None.
Proof. reflexivity. Qed.

(** *** The pull-request URL *)

Lemma not_space_false c : not_space c = false <-> is_space c = true.
Proof. unfold not_space. destruct (is_space c); simpl; intuition congruence. Qed.

Lemma not_space_true c : not_space c = true <-> is_space c = false.
Proof. unfold not_space. destruct (is_space c); simpl; intuition congruence. Qed.

(** With a continuation that accepts everything, the repetition takes the
    whole run. *)
Lemma plus_class_longest {R} p s (k : string -> option R) x :
  (forall s', k s' <> None) ->
  plus_class p s k = Some x ->
  exists s1 s2,
    s = s1 ++ s2 /\ s1 <> "" /\ all_chars p s1 = true /\
    match s2 with EmptyString => True | String c _ => p c = false end /\
    k s2 = Some x.
Proof.
  intros Hk. revert x. induction s as [| c s IH]; simpl; intros x; [discriminate |].
  destruct (p c) eqn:Hc; [| discriminate].
  destruct (plus_class p s k) as [y |] eqn:Hs.
  - intros [= <-]. destruct (IH y eq_refl) as (s1 & s2 & -> & _ & H1 & H2 & H3).
    exists (String c s1), s2. simpl. rewrite Hc, H1. repeat split; auto. discriminate.
  - intros H. exists (String c ""), s. simpl. rewrite Hc. repeat split; auto; [discriminate |].
    destruct s as [| d s']; [exact I |].
    simpl in Hs. destruct (p d); [| reflexivity].
    destruct (plus_class p s' k); [discriminate |].
    exfalso. exact (Hk _ Hs).
Qed.

Lemma pr_url_match run rest :
  all_chars not_space run = true -> run <> "" -> ends_run rest ->
  match_here pr_url_re (("https://github.com/" ++ run) ++ rest) = Some (rest, []).
Proof.
  intros H1 H2 H3. unfold match_here, pr_url_re. cbn [mtch].
  rewrite append_assoc, strip_prefix_app.
  apply plus_class_greedy; auto.
  destruct rest; [exact I |]. apply not_space_false. exact H3.
Qed.

Lemma pr_url_sound t rest caps :
  match_here pr_url_re t = Some (rest, caps) ->
  exists run,
    t = ("https://github.com/" ++ run) ++ rest /\ run <> "" /\
    all_chars not_space run = true /\ ends_run rest.
Proof.
  unfold match_here, pr_url_re. cbn [mtch]. intros H.
  destruct (strip_prefix "https://github.com/" t) as [t1 |] eqn:E; [| discriminate].
  apply strip_prefix_sound in E. subst t.
  apply plus_class_longest in H as (run & s2 & -> & H1 & H2 & H3 & [= <- _]);
    [| discriminate].
  exists run. rewrite append_assoc. repeat split; auto.
  destruct s2; [exact I |]. apply not_space_false. exact H3.
Qed.

Lemma url_starts_of_match before t rest caps :
  match_here pr_url_re t = Some (rest, caps) -> url_starts_after (before ++ t) before.
Proof.
  intros H. apply pr_url_sound in H as (run & -> & H1 & H2 & _).
  destruct run as [| c run]; [contradiction |].
  simpl in H2. apply andb_true_iff in H2 as [H2 _]. apply not_space_true in H2.
  exists c, (run ++ rest). split; [| exact H2].
  now rewrite !append_assoc.
Qed.

Lemma match_of_url_starts c rest :
  is_space c = false ->
  match_here pr_url_re ("https://github.com/" ++ String c rest) <> None.
Proof.
  intros Hc. unfold match_here, pr_url_re. cbn [mtch]. rewrite strip_prefix_app.
  cbn [plus_class]. apply not_space_true in Hc. rewrite Hc.
  destruct (plus_class not_space rest _); discriminate.
Qed.

(** The match of the pattern in the command output is the first GitHub URL
    of the output. *)
Lemma exec_pr_url_first out m :
  exec pr_url_re out = Some m -> first_github_url out (m_whole m).
Proof.
  unfold exec. intros H.
  apply exec_from_sound in H as (pre & Hs & _ & Hm & Hleft).
  destruct (pr_url_sound _ _ _ Hm) as (run & Ht & H1 & H2 & H3).
  apply append_inv_tail in Ht.
  exists pre, (m_after m). repeat split; auto.
  - exists run. auto.
  - intros before' (c & rest & Hout & Hc).
    destruct (Nat.le_gt_cases (length pre) (length before')) as [| Hlt]; [assumption |].
    exfalso. rewrite Hs in Hout.
    destruct (append_prefix_cases before' _ pre _ (eq_sym Hout) ltac:(lia)) as (d & -> & Hd).
    assert (Hne : d <> "").
    { intros ->. rewrite append_nil_r in Hlt. lia. }
    specialize (Hleft before' d eq_refl Hne). rewrite <- Hd in Hleft.
    exact (match_of_url_starts c rest Hc Hleft).
Qed.

(** Without a match the output has no GitHub URL. *)
Lemma exec_pr_url_none out :
  exec pr_url_re out = None -> no_github_url out.
Proof.
  unfold exec. intros H before (c & rest & -> & Hc).
  pose proof (exec_from_none _ _ _ H before _ eq_refl) as N.
  exact (match_of_url_starts c rest Hc N).
Qed.

(** The first GitHub URL of a text is unique. *)
Lemma exec_pr_url_of_first out u :
  first_github_url out u -> exists m, exec pr_url_re out = Some m /\ m_whole m = u.
Proof.
  intros (before & rest & -> & (run & -> & H1 & H2) & H3 & Hleft).
  unfold exec. eexists. split.
  - apply exec_from_hit.
    + intros pre1 pre2 -> Hne.
      destruct (match_here pr_url_re (pre2 ++ _)) as [[rest' caps] |] eqn:E; [| reflexivity].
      exfalso. pose proof (url_starts_of_match pre1 _ _ _ E) as Hs.
      rewrite <- append_assoc in Hs. apply Hleft in Hs.
      rewrite length_append in Hs. destruct pre2; [contradiction | simpl in Hs; lia].
    + apply pr_url_match; auto.
  - cbn [m_whole]. apply take_app_minus.
Qed.

(** The URL the workflow reports: the first GitHub URL of the output, or
    the list of pull requests of the repository when there is none. *)
Lemma extract_pr_url_spec out owner repoName :
  (exists u, first_github_url out u /\ extract_pr_url out owner repoName = u) \/
  (no_github_url out /\
   extract_pr_url out owner repoName =
   "https://github.com/" ++ owner ++ "/" ++ repoName ++ "/pulls").
Proof.
  unfold extract_pr_url. destruct (exec pr_url_re out) as [m |] eqn:E.
  - left. exists (m_whole m). split; [apply exec_pr_url_first; exact E | reflexivity].
  - right. split; [apply exec_pr_url_none; exact E | reflexivity].
Qed.

Lemma extract_pr_url_first out owner repoName u :
  first_github_url out u -> extract_pr_url out owner repoName = u.
Proof.
  intros H. apply exec_pr_url_of_first in H as (m & E & <-).
  unfold extract_pr_url. now rewrite E.
Qed.

Lemma extract_pr_url_fallback out owner repoName :
  no_github_url out ->
  extract_pr_url out owner repoName =
  "https://github.com/" ++ owner ++ "/" ++ repoName ++ "/pulls".
Proof.
  intros H. destruct (extract_pr_url_spec out owner repoName) as [(u & Hu & _) | [_ E]];
    [| exact E].
  exfalso. destruct Hu as (before & rest & -> & (run & -> & H1 & H2) & _).
  apply (H before). destruct run as [| c run]; [contradiction |].
  simpl in H2. apply andb_true_iff in H2 as [H2 _]. apply not_space_true in H2.
  exists c, (run ++ rest). split; [| exact H2]. now rewrite !append_assoc.
Qed.

Example extract_pr_url_ex1 :
  extract_pr_url ("Creating pull request for code0-1 into main" ++ nl ++
                  "https://github.com/railly/tinte/pull/12" ++ nl) "railly" "tinte"
  = "https://github.com/railly/tinte/pull/12".
Proof. reflexivity. Qed.

Example extract_pr_url_ex2 :
  extract_pr_url "pull request created" "railly" "tinte"
  = "https://github.com/railly/tinte/pulls".
Proof. reflexivity. Qed.

(** ** The command texts *)

Example render_clone :
  render (GitClone "https://github.com/cuevaio/tinte" "tinte") =
  "git clone https://github.com/cuevaio/tinte tinte".
Proof. reflexivity. Qed.

Example render_checkout :
  render (GitCheckoutNewBranch "tinte" (branch_of_time 1700000000014)) =
  "cd tinte && git checkout -b code0-1700000000014".
Proof. reflexivity. Qed.

Example render_login :
  render (GhAuthLogin "ghp_token") =
  "echo " ++ dquote ++ "ghp_token" ++ dquote ++ " | gh auth login --with-token".
Proof. reflexivity. Qed.

Example render_pr_from_fork :
  render (GhPrCreateFromFork "tinte" "T" "B" "cuevaio" "code0-1" "railly" "tinte") =
  "cd tinte && gh pr create --title " ++ dquote ++ "T" ++ dquote ++ " --body " ++
  dquote ++ "B" ++ dquote ++ " --head cuevaio:code0-1 --base main --repo railly/tinte".
Proof. reflexivity. Qed.

(* ================================================================= *)
(** ** Computations *)

Lemma bind_run {A B} (m : M A) (f : A -> M B) w :
  bind m f w =
  match m w with
  | (Normal a, evs) => let (c, evs') := f a (extend w evs) in (c, (evs ++ evs')%list)
  | (Return r, evs) => (Return r, evs)
  | (Throw e, evs) => (Throw e, evs)
  end.
Proof. reflexivity. Qed.

Section Rules.

Context {A : Type}.
Implicit Types (P : Event -> Prop) (R : CreatePRResult -> Prop) (m : M A).

Lemma emits_ret P (a : A) : emits P (ret a).
Proof. intros w. constructor. Qed.

Lemma emits_return P r : emits P (@return_ A r).
Proof. intros w. constructor. Qed.

Lemma returns_ret R (a : A) : returns R (ret a).
Proof. intros w r H. discriminate H. Qed.

Lemma returns_return R r : R r -> returns R (@return_ A r).
Proof. intros H w r' E. injection E as <-. exact H. Qed.

Lemma escalates_ret fatal (a : A) : escalates fatal (ret a).
Proof. intros w op e []. Qed.

Lemma escalates_return fatal r : escalates fatal (@return_ A r).
Proof. intros w op e []. Qed.

Lemma emits_try_catch P m h :
  emits P m -> (forall e, emits P (h e)) -> emits P (try_catch m h).
Proof.
  intros Hm Hh w. unfold try_catch. specialize (Hm w).
  destruct (m w) as [[a | r | e] evs]; simpl in *; auto.
  specialize (Hh e (extend w evs)).
  destruct (h e (extend w evs)) as [c evs']. simpl in *.
  apply Forall_app. split; assumption.
Qed.

Lemma returns_try_catch R m h :
  returns R m -> (forall e, returns R (h e)) -> returns R (try_catch m h).
Proof.
  intros Hm Hh w r. unfold try_catch. specialize (Hm w).
  destruct (m w) as [[a | r0 | e] evs] eqn:E; simpl in *; auto.
  specialize (Hh e (extend w evs)).
  destruct (h e (extend w evs)) as [c evs']. simpl in *. auto.
Qed.

(** What a [try] block tolerates must not be of the fatal class; its
    handler runs outside the block. *)
Lemma escalates_try_catch fatal m h :
  emits (fun ev => match ev with
                   | Performed op _ => fatal op = false
                   | ClockRead _ => True
                   end) m ->
  (forall e, escalates fatal (h e)) -> escalates fatal (try_catch m h).
Proof.
  intros Hm Hh w op e. unfold try_catch. specialize (Hm w).
  assert (Hnot : forall evs,
            Forall (fun ev => match ev with
                              | Performed op _ => fatal op = false
                              | ClockRead _ => True
                              end) evs ->
            In (Performed op (Rejected e)) evs -> fatal op = true -> False).
  { intros evs HF Hin Hf. rewrite Forall_forall in HF.
    specialize (HF _ Hin). simpl in HF. congruence. }
  destruct (m w) as [[a | r | e0] evs] eqn:E; simpl in *.
  - intros Hin Hf. exfalso. eauto.
  - intros Hin Hf. exfalso. eauto.
  - specialize (Hh e0 (extend w evs) op e).
    destruct (h e0 (extend w evs)) as [c evs']. simpl in *.
    intros Hin Hf. apply in_app_or in Hin as [Hin | Hin]; [exfalso; eauto | auto].
Qed.

End Rules.

Lemma emits_bind {A B} P (m : M A) (f : A -> M B) :
  emits P m -> (forall a, emits P (f a)) -> emits P (bind m f).
Proof.
  intros Hm Hf w. unfold bind. specialize (Hm w).
  destruct (m w) as [[a | r | e] evs]; simpl in *; auto.
  specialize (Hf a (extend w evs)).
  destruct (f a (extend w evs)) as [c evs']. simpl in *.
  apply Forall_app. split; assumption.
Qed.

Lemma returns_bind {A B} R (m : M A) (f : A -> M B) :
  returns R m -> (forall a, returns R (f a)) -> returns R (bind m f).
Proof.
  intros Hm Hf w r. unfold bind. specialize (Hm w).
  destruct (m w) as [[a | r0 | e] evs] eqn:E; simpl in *.
  - specialize (Hf a (extend w evs)).
    destruct (f a (extend w evs)) as [c evs']. simpl in *. auto.
  - intros [= <-]. auto.
  - discriminate.
Qed.

Lemma escalates_bind {A B} fatal (m : M A) (f : A -> M B) :
  escalates fatal m -> (forall a, escalates fatal (f a)) -> escalates fatal (bind m f).
Proof.
  intros Hm Hf w op e. unfold bind. specialize (Hm w op e).
  destruct (m w) as [[a | r | e0] evs]; simpl in *;
    [| intros Hin Hfatal; now specialize (Hm Hin Hfatal)
     | intros Hin Hfatal; specialize (Hm Hin Hfatal); congruence ].
  specialize (Hf a (extend w evs) op e).
  destruct (f a (extend w evs)) as [c evs']. simpl in *.
  intros Hin Hfatal. apply in_app_or in Hin as [Hin | Hin]; [| auto].
  specialize (Hm Hin Hfatal). discriminate.
Qed.

Lemma emits_perform (P : Event -> Prop) op :
  (forall r, P (Performed op r)) -> emits P (perform op).
Proof. intros H w. simpl. constructor; [apply H | constructor]. Qed.

Lemma returns_perform R op : returns R (perform op).
Proof.
  intros w r. unfold perform. simpl. destruct (respond w (trace w) op); discriminate.
Qed.

Lemma escalates_perform fatal op : escalates fatal (perform op).
Proof.
  intros w o e. unfold perform. simpl. intros [H | []] _.
  injection H as -> H. now rewrite H.
Qed.

Lemma emits_now (P : Event -> Prop) :
  (forall t, P (ClockRead t)) -> emits P now.
Proof. intros H w. simpl. constructor; [apply H | constructor]. Qed.

Lemma returns_now R : returns R now.
Proof. intros w r. discriminate. Qed.

Lemma escalates_now fatal : escalates fatal now.
Proof. intros w op e [H | []]. discriminate H. Qed.

(** Structural decomposition of a judgment along the program text; the
    side conditions on single operations are left to [tac]. *)
Ltac judge tac :=
  repeat first
    [ apply emits_bind; [ | intros ? ]
    | apply returns_bind; [ | intros ? ]
    | apply escalates_bind; [ | intros ? ]
    | apply emits_try_catch; [ | intros ? ]
    | apply returns_try_catch; [ | intros ? ]
    | apply escalates_try_catch; [ | intros ? ]
    | apply emits_ret | apply returns_ret | apply escalates_ret
    | apply emits_return | apply escalates_return
    | apply returns_perform | apply returns_now
    | apply escalates_perform | apply escalates_now
    | apply emits_perform; intros ?; tac
    | apply emits_now; intros ?; tac
    | apply returns_return; tac
    | match goal with
      | |- _ _ (if ?b then _ else _) =>
          first [ is_constructor b; cbv iota | destruct b ]
      | |- _ _ (match ?x with _ => _ end) =>
          first [ is_constructor x; cbv iota | destruct x ]
      | |- _ _ (console_log _) => unfold console_log
      end ].

Lemma emits_write_changes P client repoDir changes :
  (forall file text r, P (Performed (FsWriteTextFile file text) r)) ->
  emits P (write_changes client repoDir changes).
Proof.
  intros H. induction changes as [| change rest IH]; simpl.
  - apply emits_ret.
  - unfold writeTextFile. judge ltac:(apply H). exact IH.
Qed.

Lemma returns_write_changes R client repoDir changes :
  returns R (write_changes client repoDir changes).
Proof.
  induction changes as [| change rest IH]; simpl.
  - apply returns_ret.
  - unfold writeTextFile. judge idtac. exact IH.
Qed.

Lemma escalates_write_changes fatal client repoDir changes :
  escalates fatal (write_changes client repoDir changes).
Proof.
  induction changes as [| change rest IH]; simpl.
  - apply escalates_ret.
  - unfold writeTextFile. judge idtac. exact IH.
Qed.

(** The [try] block of the fork resolution only assigns and logs: it
    cannot throw, so its [catch] clause, the probe of an existing fork
    included, never runs.  The resolution adds no event and never returns
    from the function. *)
Lemma resolve_fork_run client repoUrl owner repoName authenticatedUsername w :
  resolve_fork client repoUrl owner repoName authenticatedUsername w =
  (Normal
     (if (owner =? authenticatedUsername)%string then (repoUrl, false, "")
      else ("https://github.com/" ++ authenticatedUsername ++ "/" ++ repoName, true,
            "https://github.com/" ++ authenticatedUsername ++ "/" ++ repoName)),
   []).
Proof.
  unfold resolve_fork.
  destruct (owner =? authenticatedUsername)%string; reflexivity.
Qed.

Lemma emits_resolve_fork P client repoUrl owner repoName authenticatedUsername :
  emits P (resolve_fork client repoUrl owner repoName authenticatedUsername).
Proof. intros w. rewrite resolve_fork_run. constructor. Qed.

Lemma returns_resolve_fork R client repoUrl owner repoName authenticatedUsername :
  returns R (resolve_fork client repoUrl owner repoName authenticatedUsername).
Proof. intros w r. rewrite resolve_fork_run. discriminate. Qed.

Lemma escalates_resolve_fork fatal client repoUrl owner repoName authenticatedUsername :
  escalates fatal (resolve_fork client repoUrl owner repoName authenticatedUsername).
Proof. intros w op e. rewrite resolve_fork_run. intros []. Qed.

(** The same decomposition for the stages of the workflow, the loop over
    the file edits included. *)
Ltac judge_all tac :=
  unfold ensure_clone, authenticate, get_authenticated_username,
    sync_main, create_branch, update_readme, commit_and_push, create_pr,
    sandboxes_resume, sandboxes_shutdown, connect, commands_run, readTextFile,
    writeTextFile, apply_changes;
  repeat first
    [ apply emits_resolve_fork
    | apply returns_resolve_fork
    | apply escalates_resolve_fork
    | progress judge tac
    | apply emits_write_changes; intros ? ? ?; tac
    | apply returns_write_changes
    | apply escalates_write_changes ].

(** The function resolves to what its [try] block returns, or to what its
    [catch] clause makes of a thrown value; the clause adds no event. *)
Lemma createGitHubPR_run options env w :
  createGitHubPR options env w =
  (Fulfilled (result_of (fst (try_block options env w))),
   snd (try_block options env w)).
Proof.
  unfold createGitHubPR, try_catch.
  destruct (try_block options env w) as [[r | r | e] evs]; simpl; try reflexivity.
  rewrite app_nil_r. reflexivity.
Qed.

(* ================================================================= *)
(** ** Walking through the [try] block *)

(** One step per statement of the block: the stage either completes
    normally and the walk goes on, or it ends the block. *)
Ltac walk H :=
  lazymatch type of H with
  | bind ?m ?f ?w = _ =>
      let E := fresh "E" in
      let H' := fresh "H" in
      rewrite bind_run in H;
      destruct (m w) as [[? | ? | ?] ?] eqn:E;
      [ cbv beta in H;
        repeat match type of H with
               | context [match ?x with pair _ _ => _ end] => is_var x; destruct x
               end;
        match type of H with
        | (let (_, _) := ?t in _) = _ => destruct t as [? ?] eqn:H'
        end;
        injection H as <- <-; walk H'
      | injection H as <- <-
      | injection H as <- <- ]
  | return_ _ _ = _ => injection H as <- <-
  | _ => idtac
  end.

(** From [H : try_block options env w = (c, evs)] to one goal per exit of
    the block. *)
Ltac enter H :=
  unfold try_block, createGitHubPR_try in H;
  match type of H with
  | context [falsy ?t] =>
      let Etoken := fresh "Etoken" in
      destruct (falsy t) eqn:Etoken; [ injection H as <- <- | ]
  end;
  [ | match type of H with
      | context [exec repo_re ?u] =>
          let Eurl := fresh "Eurl" in
          let Eparse := fresh "Eparse" in
          destruct (exec repo_re u) as [?repoMatch |] eqn:Eurl;
          [ destruct (parse_repo repoMatch) as [?owner ?repoName] eqn:Eparse; walk H
          | injection H as <- <- ]
      end ].

(** For every stage of the walk, what [emits] says about its events. *)
Ltac stage_emits P tac :=
  repeat match goal with
         | E : ?m ?w = (_, ?evs) |- _ =>
             lazymatch goal with
             | _ : Forall P evs |- _ => fail
             | _ => idtac
             end;
             let F := fresh "F" in
             assert (F : Forall P evs) by
               (let G := fresh in
                assert (G : emits P m) by (judge_all tac);
                specialize (G w); rewrite E in G; exact G)
         end.

(** No stage returns from the function. *)
Ltac stage_no_return :=
  match goal with
  | E : ?m ?w = (Return ?r, _) |- _ =>
      exfalso;
      let G := fresh in
      assert (G : returns (fun _ => False) m) by (judge_all idtac);
      specialize (G w r); rewrite E in G; exact (G eq_refl)
  end.

(** [Forall] over the events of a walk, from the facts on its stages; the
    events that stand in the goal itself are left to the caller. *)
Ltac forall_app :=
  repeat (apply Forall_app; split); try assumption;
  repeat first [ apply Forall_nil | apply Forall_cons ].

(* ================================================================= *)
(** ** The result *)

Lemma try_block_returns_well_formed options env :
  returns well_formed (try_block options env).
Proof.
  unfold try_block, createGitHubPR_try.
  judge_all ltac:(unfold well_formed; simpl; eauto).
  unfold well_formed; simpl. split; [reflexivity |].
  eexists. split; [reflexivity |]. simpl.
  match goal with |- context [if ?b then _ else _] => destruct b end;
    split; congruence.
Qed.

Lemma try_block_never_normal options env w r :
  fst (try_block options env w) <> Normal r.
Proof.
  destruct (try_block options env w) as [c evs] eqn:H. simpl.
  enter H; try discriminate; stage_no_return.
Qed.

(** C9: every result of [createGitHubPR] is well formed: a success has
    [data] (with [prUrl], [branchName] and [sandboxId]) and no [error], and
    [forkUrl] is defined exactly when [forked] is true; a failure has
    [error] and no [data]. *)
Theorem result_well_formed options env w :
  exists r, fst (createGitHubPR options env w) = Fulfilled r /\ well_formed r.
Proof.
  rewrite createGitHubPR_run. simpl. eexists. split; [reflexivity |].
  pose proof (try_block_returns_well_formed options env w) as HR.
  pose proof (try_block_never_normal options env w) as HN.
  destruct (fst (try_block options env w)) as [r | r | e]; simpl.
  - exfalso. exact (HN r eq_refl).
  - apply HR. reflexivity.
  - unfold well_formed, caught. simpl. eauto.
Qed.

(* ================================================================= *)
(** ** The error boundary *)

Lemma try_block_escalates options env :
  escalates always_fatal (try_block options env).
Proof.
  unfold try_block, createGitHubPR_try.
  judge_all ltac:(reflexivity || exact I).
Qed.

(** C1, as amended: whatever happens, the promise of [createGitHubPR] is
    fulfilled, never rejected.  A thrown value that leaves the [try] block
    (one that no inner handler tolerates) becomes a failure result whose
    message is the message of the thrown [Error], or the text
    [Unknown error occurred] for any other value; the rejection of an
    operation that never stands in an inner [try] block always does so.
    The message is not empty unless the thrown [Error] has an empty
    message. *)
Theorem error_boundary options env w :
  exists r,
    fst (createGitHubPR options env w) = Fulfilled r /\
    (forall e, fst (try_block options env w) = Throw e -> r = caught e) /\
    (forall op e,
        In (Performed op (Rejected e)) (snd (createGitHubPR options env w)) ->
        always_fatal op = true -> r = caught e) /\
    (forall e,
        success (caught e) = false /\ data (caught e) = None /\
        error (caught e) = Some (error_message e "Unknown error occurred") /\
        (e <> ErrorObject "" -> error (caught e) <> Some "")).
Proof.
  rewrite createGitHubPR_run. simpl. eexists. split; [reflexivity |].
  split; [| split].
  - intros e ->. reflexivity.
  - intros op e Hin Hfatal.
    rewrite (try_block_escalates options env w op e Hin Hfatal). reflexivity.
  - intros e. repeat split.
    intros Hne. unfold caught. simpl. destruct e as [msg |]; simpl.
    + intros [= ->]. contradiction.
    + discriminate.
Qed.

Ltac in_list := repeat first [ left; reflexivity | right ].

(** C1, as stated, fails twice.  A rejected operation that an inner
    handler tolerates (here the read of a README that does not exist) does
    not make the call fail; and a thrown [Error] with an empty message
    gives a failure whose message is empty. *)
Lemma error_boundary_counterexample :
  (let run := createGitHubPR (options_url "https://github.com/railly/tinte")
                env_with_token world_cuevaio in
   some_rejection (snd run) /\
   exists r, fst run = Fulfilled r /\ success r = true) /\
  (let run := createGitHubPR (options_url "https://github.com/railly/tinte")
                env_with_token world_silent_failure in
   some_rejection (snd run) /\
   exists r, fst run = Fulfilled r /\ success r = false /\ error r = Some "").
Proof.
  split.
  - split.
    + exists (FsReadTextFile "./tinte/README.md"),
        (ErrorObject "ENOENT: no such file or directory").
      vm_compute. in_list.
    + eexists. split; [vm_compute; reflexivity | reflexivity].
  - split.
    + exists (SandboxesResume "wmwx2g"), (ErrorObject "").
      vm_compute. in_list.
    + eexists. split; [vm_compute; reflexivity | split; reflexivity].
Qed.

Lemma error_boundary_witness :
  exists r,
    fst (createGitHubPR (options_url "https://github.com/railly/tinte")
           env_with_token world_silent_failure) = Fulfilled r /\
    r = caught (ErrorObject "").
Proof.
  destruct (error_boundary (options_url "https://github.com/railly/tinte")
              env_with_token world_silent_failure) as (r & Hr & _ & Hfatal & _).
  exists r. split; [exact Hr |].
  apply (Hfatal (SandboxesResume "wmwx2g")); [vm_compute; in_list | reflexivity].
Defined.

(* ================================================================= *)
(** ** The fork probe *)

Lemma try_block_no_probe options env :
  emits (fun e => is_fork_probe e = false) (try_block options env).
Proof.
  unfold try_block, createGitHubPR_try.
  judge_all ltac:(reflexivity).
Qed.

(** C2 does not hold of the code: the command that views the repository
    [<authedUser>/<repo>] is never run, whoever the authenticated user is.
    The [try] block in front of the probe cannot throw, so the probe and
    the failure with the combined message are unreachable. *)
Theorem fork_probe_never_runs options env w :
  Forall (fun e => is_fork_probe e = false) (snd (createGitHubPR options env w)).
Proof.
  rewrite createGitHubPR_run. simpl. apply try_block_no_probe.
Qed.

(** On the repository of another owner the workflow goes straight to the
    clone of the fork it assumes. *)
Example fork_probe_example :
  let run := createGitHubPR (options_url "https://github.com/railly/tinte")
               env_with_token world_cuevaio in
  existsb is_fork_probe (snd run) = false /\
  In (Performed (CommandsRun (GitClone "https://github.com/cuevaio/tinte" "tinte"))
        (Resolved "")) (snd run).
Proof. split; [vm_compute; reflexivity | vm_compute; in_list]. Qed.


(* ================================================================= *)
(** ** The sandbox *)

Lemma sandboxes_resume_inv i w c evs :
  sandboxes_resume i w = (c, evs) ->
  exists reply,
    evs = [Performed (SandboxesResume i) reply] /\
    reply = respond w (trace w) (SandboxesResume i) /\
    match c with
    | Normal sandbox => reply = Resolved (id sandbox)
    | Return _ => False
    | Throw e => reply = Rejected e
    end.
Proof.
  unfold sandboxes_resume, bind, perform, ret.
  destruct (respond w (trace w) (SandboxesResume i)) as [v | e] eqn:E;
    intros [= <- <-]; eexists; repeat split; eauto.
Qed.

(** C10: a call that passes the credential and URL checks resumes the
    sandbox [wmwx2g] as its first operation and never creates a sandbox;
    every success result carries the identifier of the resumed sandbox,
    which is [wmwx2g] on a platform that resumes the sandbox it is asked
    for. *)
Theorem fixed_sandbox options env w :
  falsy (GITHUB_PERSONAL_ACCESS_TOKEN env) = false ->
  parse_url (repoUrl options) <> None ->
  resumes_requested w ->
  (exists reply rest,
      snd (createGitHubPR options env w) =
      Performed (SandboxesResume "wmwx2g") reply :: rest) /\
  Forall (fun e => is_sandbox_creation e = false) (snd (createGitHubPR options env w)) /\
  (forall r,
      fst (createGitHubPR options env w) = Fulfilled r -> success r = true ->
      exists d, data r = Some d /\ sandboxId d = "wmwx2g").
Proof.
  intros Htoken Hurl Hsdk. rewrite createGitHubPR_run. simpl.
  destruct (try_block options env w) as [c evs] eqn:H. simpl.
  enter H.
  1: congruence.
  all: try (exfalso; apply Hurl; unfold parse_url; now rewrite Eurl).
  all: try stage_no_return.
  all: match goal with
       | E : sandboxes_resume _ _ = _ |- _ =>
           apply sandboxes_resume_inv in E as (reply & -> & Hreply & Hc)
       end.
  all: split; [ eexists _, _; reflexivity | split ].
  all: try (intros r [= <-]; simpl; discriminate).
  all: try (match goal with |- Forall _ _ => idtac end;
            stage_emits (fun e => is_sandbox_creation e = false) ltac:(reflexivity);
            forall_app; reflexivity).
  intros r [= <-] _. simpl. eexists. split; [reflexivity |]. simpl.
  apply (Hsdk (trace w) the_sandbox (id a)). congruence.
Qed.

Lemma fixed_sandbox_witness :
  exists r d,
    fst (createGitHubPR options_example env_with_token world_cuevaio) = Fulfilled r /\
    data r = Some d /\ sandboxId d = "wmwx2g".
Proof.
  destruct (fixed_sandbox options_example env_with_token world_cuevaio) as (_ & _ & H).
  - reflexivity.
  - vm_compute. discriminate.
  - intros h i v. simpl. intros [= ->]. reflexivity.
  - specialize (H (result_of (fst (try_block options_example env_with_token world_cuevaio)))).
    rewrite createGitHubPR_run in H. specialize (H eq_refl).
    destruct H as (d & Hd & Hs); [vm_compute; reflexivity |].
    exists (result_of (fst (try_block options_example env_with_token world_cuevaio))), d.
    rewrite createGitHubPR_run. auto.
Defined.

(* ================================================================= *)
(** ** The repository URL *)





(* ================================================================= *)
(** ** Ownership and fork *)

Lemma filter_none {A} (p : A -> bool) l :
  Forall (fun x => p x = false) l -> filter p l = [].
Proof.
  induction 1 as [| x l Hx _ IH]; simpl; [reflexivity |]. now rewrite Hx.
Qed.



(** Rewrites [filter p] of the events of a walk to the events of the one
    stage that has events of class [p], in the goal and in [H]. *)
Ltac filter_stages p :=
  rewrite ?filter_app;
  repeat match goal with
         | F : Forall (fun e => p e = false) ?l |- context [filter p ?l] =>
             rewrite (filter_none p l F)
         end.

Ltac filter_stages_in p H :=
  rewrite ?filter_app in H;
  repeat match type of H with
         | context [filter p ?l] =>
             match goal with
             | F : Forall (fun e => p e = false) l |- _ =>
                 rewrite (filter_none p l F) in H
             end
         end.






(* ================================================================= *)
(** ** The pull-request URL *)

Lemma create_pr_inv client repoDir title body user owner repoName branch
    forked forkUrl w c evs :
  create_pr client repoDir title body user owner repoName branch forked forkUrl w
  = (c, evs) ->
  exists t cmd reply,
    evs = [ClockRead t; Performed (CommandsRun cmd) reply] /\
    is_pr_create (Performed (CommandsRun cmd) reply) = true /\
    match c with
    | Normal url =>
        exists out, reply = Resolved out /\ url = extract_pr_url out owner repoName
    | Return _ => False
    | Throw e => reply = Rejected e
    end.
Proof.
  unfold create_pr, commands_run. rewrite bind_run. cbn [now fst snd].
  destruct forked; rewrite bind_run; unfold perform;
    match goal with
    | |- context [respond ?w ?h ?op] => destruct (respond w h op) as [v | e] eqn:E
    end;
    intros [= <- <-]; eexists _, _, _; repeat split; eauto.
Qed.




(* ================================================================= *)
(** ** The branch name *)



Example branch_name_ex :
  branch_of_time 1700000000014 = "code0-1700000000014" /\
  branch_number "code0-1700000000014" = Some 1700000000014%Z.
Proof. split; reflexivity. Qed.

Lemma create_branch_inv client repoDir w c evs :
  create_branch client repoDir w = (c, evs) ->
  exists reply,
    evs = [ClockRead (time w (trace w));
           Performed (CommandsRun
                        (GitCheckoutNewBranch repoDir (branch_of_time (time w (trace w)))))
                     reply] /\
    match c with
    | Normal branch => branch = branch_of_time (time w (trace w))
    | Return _ => False
    | Throw _ => True
    end.
Proof.
  unfold create_branch, commands_run. rewrite bind_run. cbn [now fst snd].
  rewrite bind_run. unfold perform.
  match goal with
  | |- context [respond ?w ?h ?op] => destruct (respond w h op) as [v | e] eqn:E
  end;
    intros [= <- <-]; eexists; repeat split; eauto.
Qed.





(* ================================================================= *)
(** ** The file edits *)






Ltac no_fs_elsewhere :=
  stage_emits (fun e => is_fs e = false) ltac:(reflexivity).



(* ================================================================= *)
(** ** The default README update *)


Lemma apply_changes_default client repoDir repoName :
  apply_changes client repoDir repoName [] = update_readme client repoDir repoName.
Proof. reflexivity. Qed.



Ltac in_events :=
  repeat (apply in_or_app; first [ left; solve [ cbn [In]; auto 8 ] | right ]);
  cbn [In]; auto 8.




(** Two runs on a platform that keeps its files: the first creates the
    README, the second writes the first text back with a section after it. *)
Example readme_accumulates :
  let options := options_url "https://github.com/railly/tinte" in
  let run1 := createGitHubPR options env_with_token world_with_files in
  let run2 := createGitHubPR options env_with_token
                (extend world_with_files (snd run1)) in
  exists first,
    written_to "./tinte/README.md" (snd run1) = [first] /\
    written_to "./tinte/README.md" (snd run2) =
      [first ++ readme_update_section "2023-11-14T22:13:20.043Z"].
Proof. eexists. split; vm_compute; reflexivity. Qed.

(* ================================================================= *)
(** * Further properties of the workflow *)

(** ** The credential check *)

(** X1: without a token (the variable unset or empty) the call fails with
    the message about the variable and performs no operation, whatever the
    URL is: the check comes first. *)
Theorem missing_credential options env w :
  GITHUB_PERSONAL_ACCESS_TOKEN env = None \/ GITHUB_PERSONAL_ACCESS_TOKEN env = Some "" ->
  createGitHubPR options env w =
  (Fulfilled
     (failure "GITHUB_PERSONAL_ACCESS_TOKEN environment variable is required"), []).
Proof.
  intros H. rewrite createGitHubPR_run. unfold try_block, createGitHubPR_try.
  destruct H as [-> | ->]; reflexivity.
Qed.

Lemma missing_credential_witness :
  createGitHubPR (options_url "not a url") {| GITHUB_PERSONAL_ACCESS_TOKEN := Some "" |}
    world_cuevaio =
  (Fulfilled
     (failure "GITHUB_PERSONAL_ACCESS_TOKEN environment variable is required"), []).
Proof. apply missing_credential. right. reflexivity. Defined.

(** ** Teardown *)

Lemma sandboxes_shutdown_inv i w c evs :
  sandboxes_shutdown i w = (c, evs) ->
  exists reply,
    evs = [Performed (SandboxesShutdown i) reply] /\
    match c with
    | Normal _ => exists v, reply = Resolved v
    | Return _ => False
    | Throw e => reply = Rejected e
    end.
Proof.
  unfold sandboxes_shutdown, bind, perform, ret.
  destruct (respond w (trace w) (SandboxesShutdown i)) as [v | e] eqn:E;
    intros [= <- <-]; eexists; repeat split; eauto.
Qed.

Ltac no_shutdown_elsewhere :=
  stage_emits (fun e => is_shutdown e = false) ltac:(reflexivity).

(** X2: the sandbox is shut down at the very end of a success and nowhere
    else.  The events of a success end with the resolved shutdown of the
    sandbox the result names, with no shutdown before it; the events of a
    failure contain no resolved shutdown, so a failed call leaves the
    sandbox running. *)
Theorem shutdown_only_on_success options env w r :
  fst (createGitHubPR options env w) = Fulfilled r ->
  (success r = true ->
     exists d pre v,
       data r = Some d /\
       snd (createGitHubPR options env w) =
         (pre ++ [Performed (SandboxesShutdown (sandboxId d)) (Resolved v)])%list /\
       Forall (fun e => is_shutdown e = false) pre) /\
  (success r = false ->
     forall i v,
       ~ In (Performed (SandboxesShutdown i) (Resolved v))
            (snd (createGitHubPR options env w))).
Proof.
  rewrite createGitHubPR_run. cbn [fst snd]. intros [= <-].
  destruct (try_block options env w) as [c evs] eqn:H. cbn [fst snd].
  enter H; try stage_no_return.
  all: repeat match goal with
         | E : sandboxes_shutdown _ _ = _ |- _ =>
             apply sandboxes_shutdown_inv in E as (reply & -> & Hc)
         end.
  all: no_shutdown_elsewhere.
  all: split; [ try (cbn; discriminate) | try (cbn; discriminate) ].
  all: try (intros _ i v Hin;
            pose proof (proj2 (filter_In is_shutdown _ _) (conj Hin eq_refl)) as Hin';
            clear Hin; filter_stages_in is_shutdown Hin'; cbn in Hin';
            repeat destruct Hin' as [Hin' | Hin']; try contradiction;
            subst; discriminate).
  destruct Hc as [v ->]. intros _. eexists _, _, v. split; [reflexivity |].
  cbn [sandboxId]. split.
  - rewrite app_nil_r, !app_assoc. reflexivity.
  - forall_app.
Qed.

Lemma shutdown_only_on_success_witness :
  let r := {| success := true;
              data := Some {| prUrl := "https://github.com/railly/tinte/pull/12";
                              branchName := "code0-1700000000014";
                              sandboxId := "wmwx2g";
                              forked := Some true;
                              forkUrl := Some "https://github.com/cuevaio/tinte" |};
              error := None |} in
  exists d pre v,
    data r = Some d /\
    snd (createGitHubPR options_example env_with_token world_with_files) =
      (pre ++ [Performed (SandboxesShutdown (sandboxId d)) (Resolved v)])%list /\
    Forall (fun e => is_shutdown e = false) pre.
Proof.
  cbv zeta.
  destruct (shutdown_only_on_success options_example env_with_token world_with_files
              {| success := true;
                 data := Some {| prUrl := "https://github.com/railly/tinte/pull/12";
                                 branchName := "code0-1700000000014";
                                 sandboxId := "wmwx2g";
                                 forked := Some true;
                                 forkUrl := Some "https://github.com/cuevaio/tinte" |};
                 error := None |}) as [H _].
  - vm_compute. reflexivity.
  - exact (H eq_refl).
Defined.

(** ** Setting the session up *)

Lemma connect_inv sandbox w c evs :
  connect sandbox w = (c, evs) ->
  exists reply,
    evs = [Performed (SandboxConnect (id sandbox)) reply] /\
    match c with
    | Normal _ => exists v, reply = Resolved v
    | Return _ => False
    | Throw e => reply = Rejected e
    end.
Proof.
  unfold connect, bind, perform, ret.
  destruct (respond w (trace w) (SandboxConnect (id sandbox))) as [v | e] eqn:E;
    intros [= <- <-]; eexists; repeat split; eauto.
Qed.

Lemma authenticate_inv client accessToken w c evs :
  authenticate client accessToken w = (c, evs) ->
  Forall (fun e => is_setup e = true) evs /\
  match c with
  | Normal _ =>
      exists v1 v2 v3 v4,
        evs = [Performed (CommandsRun (GhAuthLogin accessToken)) (Resolved v1);
               Performed (CommandsRun GhAuthSetupGit) (Resolved v2);
               Performed (CommandsRun GitConfigUserName) (Resolved v3);
               Performed (CommandsRun GitConfigUserEmail) (Resolved v4)]
  | Return _ => False
  | Throw _ => True
  end.
Proof.
  intros H. split.
  - assert (G : emits (fun e => is_setup e = true) (authenticate client accessToken))
      by (judge_all ltac:(reflexivity)).
    specialize (G w). now rewrite H in G.
  - revert H. unfold authenticate, commands_run.
    repeat (rewrite bind_run; unfold perform at 1; cbv zeta;
            match goal with
            | |- context [respond ?w' ?h ?op] =>
                destruct (respond w' h op) as [? | ?]
            end; cbv beta iota);
      try (intros [= <- <-]; exact I).
    cbn [ret app]. intros [= <- <-]. eauto 8.
Qed.

(** X3: nothing happens before the session is set up.  Whenever a call
    performs anything beyond the setup (a command of the work proper, a
    file operation, a reading of the clock), its events start with the
    resumed sandbox, the connection to it and the four authentication
    commands, all resolved, the login with the token of the environment. *)
Theorem setup_comes_first options env w e :
  In e (snd (createGitHubPR options env w)) -> is_setup e = false ->
  exists token i v2 v3 v4 v5 v6 rest,
    GITHUB_PERSONAL_ACCESS_TOKEN env = Some token /\
    snd (createGitHubPR options env w) =
      (Performed (SandboxesResume "wmwx2g") (Resolved i)
       :: Performed (SandboxConnect i) (Resolved v2)
       :: Performed (CommandsRun (GhAuthLogin token)) (Resolved v3)
       :: Performed (CommandsRun GhAuthSetupGit) (Resolved v4)
       :: Performed (CommandsRun GitConfigUserName) (Resolved v5)
       :: Performed (CommandsRun GitConfigUserEmail) (Resolved v6)
       :: rest).
Proof.
  rewrite createGitHubPR_run. cbn [fst snd]. intros Hin He.
  destruct (try_block options env w) as [c evs] eqn:H. cbn [fst snd] in *.
  enter H; try stage_no_return; try contradiction.
  all: repeat match goal with
         | E : sandboxes_resume _ _ = _ |- _ =>
             apply sandboxes_resume_inv in E as (reply1 & -> & _ & Hc1)
         | E : connect _ _ = _ |- _ =>
             apply connect_inv in E as (reply2 & -> & Hc2)
         | E : authenticate _ _ _ = _ |- _ =>
             apply authenticate_inv in E as (Hsetup & Hc3)
         end.
  all: try (lazymatch goal with
            | E : get_authenticated_username _ _ = _ |- _ => fail
            | _ => idtac
            end;
            exfalso;
            match type of Hin with
            | In _ ?L =>
                assert (HF : Forall (fun e => is_setup e = true) L)
                  by (forall_app; reflexivity);
                rewrite Forall_forall in HF; specialize (HF _ Hin); congruence
            end).
  all: destruct (GITHUB_PERSONAL_ACCESS_TOKEN env) as [token |] eqn:Etok;
       [ | discriminate Etoken ].
  all: destruct Hc2 as [v2 ->]; destruct Hc3 as (v3 & v4 & v5 & v6 & ->); subst reply1.
  all: eexists token, _, _, _, _, _, _, _; split; [reflexivity |]; reflexivity.
Qed.

Lemma setup_comes_first_witness :
  exists token i v2 v3 v4 v5 v6 rest,
    Some "ghp_token" = Some token /\
    snd (createGitHubPR options_example env_with_token world_cuevaio) =
      (Performed (SandboxesResume "wmwx2g") (Resolved i)
       :: Performed (SandboxConnect i) (Resolved v2)
       :: Performed (CommandsRun (GhAuthLogin token)) (Resolved v3)
       :: Performed (CommandsRun GhAuthSetupGit) (Resolved v4)
       :: Performed (CommandsRun GitConfigUserName) (Resolved v5)
       :: Performed (CommandsRun GitConfigUserEmail) (Resolved v6)
       :: rest).
Proof.
  apply (setup_comes_first options_example env_with_token world_cuevaio
           (Performed (CommandsRun GhApiUserLogin) (Resolved ("cuevaio" ++ nl)))).
  - vm_compute. in_list.
  - reflexivity.
Defined.

(** ** Clone or repair *)

(** A brute-force run of a stage: every operation is resolved or rejected
    in turn, every comparison goes one way or the other. *)
Ltac run_norm :=
  cbv beta iota zeta delta
    [bind try_catch perform ret return_ commands_run console_log now
     fst snd extend negb];
  cbn [respond trace time app].

Ltac run_step :=
  run_norm;
  match goal with
  | |- context [respond ?w ?h ?op] =>
      is_var w;
      let v := fresh "v" in
      let e := fresh "e" in
      destruct (respond w h op) as [v | e]
  | |- context [if (?a =? ?b)%string then _ else _] =>
      let E := fresh "E" in
      destruct (a =? b)%string eqn:E;
      [ apply String.eqb_eq in E | clear E ]
  end.

Ltac in_now := cbn [In]; repeat first [ left; reflexivity | right ].

Ltac in_cases H :=
  cbn [In] in H;
  repeat match type of H with
         | _ \/ _ => destruct H as [H | H]
         end;
  try contradiction; try discriminate H.

Lemma ensure_clone_facts client dir working upstream forked w c evs :
  ensure_clone client dir working upstream forked w = (c, evs) ->
  clone_stage_facts dir working upstream c evs.
Proof.
  unfold ensure_clone. destruct forked.
  all: repeat run_step.
  all: run_norm; intros [= <- <-]; unfold clone_stage_facts, test_said_exists.
  all: repeat split.
  all: try solve [ repeat constructor ].
  all: try solve [ intros ? H; in_cases H ].
  all: try solve [ intros ? ? ? [H | H]; in_cases H ].
  all: try discriminate.
  all: try solve [ intros; eexists; split; [ in_now | assumption ] ].
  all: try solve [ intros; eexists; in_now ].
  all: try solve [ intros _; left; eexists; in_now ].
  all: try solve [ intros _; right; split;
                   [ eexists; split; [ in_now | assumption ]
                   | split; [ eexists; in_now | repeat constructor ] ] ].
Qed.

Lemma clone_stage_facts_nil dir working upstream e :
  clone_stage_facts dir working upstream (Throw e) [].
Proof.
  unfold clone_stage_facts. repeat split; try solve [ intros ? [] ]; try constructor.
  - discriminate.
  - intros ? ? ? [[] | []].
Qed.

(** Cuts the events of a walk at the events [L] of one stage. *)
Ltac cut_at L chain :=
  lazymatch chain with
  | (L ++ ?post)%list => constr:((@nil Event, post))
  | L => constr:((@nil Event, @nil Event))
  | (?a ++ ?rest)%list =>
      let r := cut_at L rest in
      lazymatch r with
      | (?p, ?q) => constr:(((a ++ p)%list, q))
      end
  end.

(** The clone-or-repair stage within a call: the events of the call are
    those before the stage, those of the stage and those after it; the
    commands of the stage occur nowhere else, and the call goes on after
    the stage only when the stage completed normally. *)
Lemma clone_stage_in_call options env w owner repoName :
  parse_url (repoUrl options) = Some (owner, repoName) ->
  exists pre l post c working,
    snd (try_block options env w) = (pre ++ l ++ post)%list /\
    Forall (fun e => is_clone_stage e = false /\ is_checkout_main e = false) pre /\
    Forall (fun e => is_clone_stage e = false) post /\
    clone_stage_facts repoName working (repoUrl options) c l /\
    (post <> [] -> c = Normal tt).
Proof.
  intros Hparse. unfold parse_url in Hparse.
  destruct (try_block options env w) as [c evs] eqn:H. cbn [fst snd].
  enter H; try discriminate; try stage_no_return.
  all: try injection Hparse as -> ->.
  all: try match goal with
           | E : ensure_clone _ _ _ _ _ _ = _ |- _ =>
               apply ensure_clone_facts in E
           end.
  all: stage_emits (fun e => is_clone_stage e = false /\ is_checkout_main e = false)
         ltac:(split; reflexivity).
  all: stage_emits (fun e => is_clone_stage e = false) ltac:(reflexivity).
  all: lazymatch goal with
       | E : clone_stage_facts _ ?W _ ?c ?L |- exists _ _ _ _ _, ?chain = _ /\ _ =>
           let r := cut_at L chain in
           lazymatch r with
           | (?p, ?q) => exists p, L, q, c, W
           end
       | |- exists _ _ _ _ _, ?chain = _ /\ _ =>
           exists chain, (@nil Event), (@nil Event), (Throw NotAnError), ""
       end.
  all: split; [ rewrite <- ?app_assoc, ?app_nil_r; cbn [app]; rewrite ?app_nil_r; reflexivity | ].
  all: split; [ forall_app; split; reflexivity | ].
  all: split; [ forall_app; reflexivity | ].
  all: split; [ first [ assumption | apply clone_stage_facts_nil ] | ].
  all: try (intros Hne; exfalso; apply Hne; reflexivity).
  all: intros _; repeat match goal with a : unit |- _ => destruct a end; reflexivity.
Qed.

Lemma in_middle {A} (x : A) pre l post :
  In x l -> In x (pre ++ l ++ post)%list.
Proof. intros H. apply in_or_app. right. apply in_or_app. now left. Qed.

(** An event of a class that only the stage has is an event of the stage. *)
Lemma in_stage_only (p : Event -> bool) x pre l post :
  In x (pre ++ l ++ post)%list -> p x = true ->
  Forall (fun e => p e = false) pre -> Forall (fun e => p e = false) post ->
  In x l.
Proof.
  intros Hin Hp Hpre Hpost. rewrite Forall_forall in Hpre, Hpost.
  apply in_app_or in Hin as [Hin | Hin]; [specialize (Hpre _ Hin); congruence |].
  apply in_app_or in Hin as [Hin | Hin]; [exact Hin |].
  specialize (Hpost _ Hin). congruence.
Qed.







(** X6: the handler that removes the directory also covers the update of
    the remotes.  When, in a directory that is a git repository, the
    [origin] remote can neither be set nor added, or the [upstream] remote
    can neither be added nor set, the workflow removes the directory. *)
Theorem failed_remote_update_removes options env w owner repoName dir url e :
  parse_url (repoUrl options) = Some (owner, repoName) ->
  In (Performed (CommandsRun (GitRemoteAddOrigin dir url)) (Rejected e))
     (snd (createGitHubPR options env w)) \/
  In (Performed (CommandsRun (GitRemoteSetUrlUpstream dir url)) (Rejected e))
     (snd (createGitHubPR options env w)) ->
  exists r, In (Performed (CommandsRun (RmRf repoName)) r)
               (snd (createGitHubPR options env w)).
Proof.
  intros Hparse. rewrite createGitHubPR_run. cbn [fst snd].
  destruct (clone_stage_in_call options env w owner repoName Hparse)
    as (pre & l & post & c & working & -> & Hpre & Hpost & Hfacts & _).
  assert (Hpre' : Forall (fun x => is_clone_stage x = false) pre).
  { eapply Forall_impl; [| exact Hpre]. now intros x [Hx _]. }
  destruct Hfacts as (_ & _ & _ & HD & _).
  intros Hin. destruct (HD dir url e) as (r & Hr).
  - destruct Hin as [Hin | Hin]; [left | right];
      exact (in_stage_only is_clone_stage _ pre l post Hin eq_refl Hpre' Hpost).
  - exists r. now apply in_middle.
Qed.

Lemma failed_remote_update_removes_witness :
  exists r, In (Performed (CommandsRun (RmRf "tinte")) r)
              (snd (createGitHubPR options_example env_with_token world_origin_locked)).
Proof.
  apply (failed_remote_update_removes options_example env_with_token world_origin_locked
           "railly" "tinte" "tinte" "https://github.com/cuevaio/tinte"
           (ErrorObject "error: could not lock config")).
  - vm_compute. reflexivity.
  - left. vm_compute. in_list.
Defined.

(** ** Synchronisation of a fork *)

Lemma sync_main_facts client dir forked w c evs :
  sync_main client dir forked w = (c, evs) -> sync_stage_facts c evs.
Proof.
  unfold sync_main. destruct forked.
  all: repeat run_step.
  all: run_norm; intros [= <- <-]; unfold sync_stage_facts.
  all: intros x Hin Hs Hr; in_cases Hin; subst x; try discriminate.
  all: split; [ reflexivity | ].
  - eexists [_; _; _]. reflexivity.
  - eexists [_; _]. reflexivity.
  - eexists [_]. reflexivity.
Qed.

(** X7: the synchronisation of a fork is best effort.  When the fetch from
    upstream, the merge or the push of the main branch is rejected, the
    rest of the synchronisation is skipped and the call goes on: it reads
    the clock and runs the command that creates the branch. *)
Theorem sync_failure_is_tolerated options env w owner repoName e :
  parse_url (repoUrl options) = Some (owner, repoName) ->
  In e (snd (createGitHubPR options env w)) ->
  is_sync e = true -> is_rejected e = true ->
  exists before t reply rest,
    snd (createGitHubPR options env w) =
      (before ++ e :: ClockRead t
         :: Performed (CommandsRun (GitCheckoutNewBranch repoName (branch_of_time t))) reply
         :: rest)%list.
Proof.
  intros Hparse. rewrite createGitHubPR_run. cbn [fst snd]. intros Hin Hs Hr.
  unfold parse_url in Hparse.
  assert (Hin' : In e (filter is_sync (snd (try_block options env w)))).
  { apply filter_In. split; assumption. }
  clear Hin. revert Hin'.
  destruct (try_block options env w) as [c evs] eqn:H. cbn [fst snd].
  enter H; try discriminate; try stage_no_return; try (cbn; solve [intros []]).
  all: try injection Hparse as -> ->.
  all: repeat match goal with
         | E : sync_main _ _ _ _ = _ |- _ => apply sync_main_facts in E
         | E : create_branch _ _ _ = _ |- _ =>
             apply create_branch_inv in E as (reply & -> & _)
         end.
  all: stage_emits (fun e => is_sync e = false) ltac:(reflexivity).
  all: filter_stages is_sync; cbn [filter is_sync app]; rewrite ?app_nil_r.
  all: try solve [intros []].
  all: intros Hin; apply filter_In in Hin as [Hin _].
  all: match goal with
       | E : sync_stage_facts _ _ |- _ =>
           destruct (E e Hin Hs Hr) as [Hc [before ->]]
       end.
  all: try discriminate Hc.
  all: match goal with
       | |- exists _ _ _ _, (?a ++ ?b ++ ?c ++ ?d ++ ?e0 ++ ?f ++ (?before ++ [_]) ++ _)%list = _ =>
           exists (a ++ b ++ c ++ d ++ e0 ++ f ++ before)%list
       end.
  all: eexists _, _, _.
  all: rewrite <- ?app_assoc; cbn [app]; reflexivity.
Qed.

Lemma sync_failure_is_tolerated_witness :
  exists before t reply rest,
    snd (createGitHubPR options_example env_with_token world_reuse) =
      (before
         ++ Performed (CommandsRun (GitFetchUpstream "tinte"))
              (Rejected (ErrorObject "fatal: unable to access"))
         :: ClockRead t
         :: Performed (CommandsRun (GitCheckoutNewBranch "tinte" (branch_of_time t))) reply
         :: rest)%list.
Proof.
  apply (sync_failure_is_tolerated options_example env_with_token world_reuse
           "railly" "tinte").
  - vm_compute. reflexivity.
  - vm_compute. in_list.
  - reflexivity.
  - reflexivity.
Defined.

(** ** Commit and push *)

Lemma commit_and_push_events client dir user msg branch w c evs :
  commit_and_push client dir user msg branch w = (c, evs) ->
  commit_stage_events dir user msg branch c evs.
Proof.
  unfold commit_and_push.
  repeat run_step.
  all: run_norm; intros [= <- <-]; unfold commit_stage_events, co_author_trailer.
  - right. right. eexists _, _, (Resolved _), _. split; [reflexivity |].
    eexists (Resolved _). split; reflexivity.
  - right. right. eexists _, _, (Resolved _), _. split; [reflexivity |].
    eexists (Rejected _). split; reflexivity.
  - right. right. eexists _, _, (Rejected _), _. split; [reflexivity |]. split; reflexivity.
  - right. left. eexists _, _. split; reflexivity.
  - left. eexists. split; reflexivity.
Qed.





(** ** Publication *)

Lemma commit_and_push_normal client dir user msg branch w u evs :
  commit_and_push client dir user msg branch w = (Normal u, evs) ->
  exists v1 out v3 v4,
    evs = [Performed (CommandsRun (GitAddAll dir)) (Resolved v1);
           Performed (CommandsRun (GhApiUserEmail dir)) (Resolved out);
           Performed (CommandsRun
             (GitCommit dir (msg ++ nl ++ nl ++ co_author_trailer user out)))
             (Resolved v3);
           Performed (CommandsRun (GitPushSetUpstream dir branch)) (Resolved v4)].
Proof.
  intros H. apply commit_and_push_events in H.
  destruct H as [(e & [=] & _) | [(v1 & e & [=] & _) | (v1 & out & r & rest & -> & Hr)]].
  destruct r as [v3 | e]; [| destruct Hr as ([=] & _)].
  destruct Hr as ([v4 | e] & -> & Hc); [| discriminate Hc].
  now exists v1, out, v3, v4.
Qed.

Lemma create_branch_normal client dir w branch evs :
  create_branch client dir w = (Normal branch, evs) ->
  exists t v,
    evs = [ClockRead t;
           Performed (CommandsRun (GitCheckoutNewBranch dir branch)) (Resolved v)].
Proof.
  unfold create_branch. repeat run_step.
  all: run_norm; intros [= <- <-]. eexists _, _. reflexivity.
Qed.

Lemma create_pr_head client dir title body user owner repoName branch
    forked forkUrl w c evs :
  create_pr client dir title body user owner repoName branch forked forkUrl w
  = (c, evs) ->
  exists t e,
    evs = [ClockRead t; e] /\ is_pr_create e = true /\ pr_head e = Some branch.
Proof.
  unfold create_pr. destruct forked.
  all: repeat run_step.
  all: run_norm; intros [= <- <-]; eexists _, _; repeat split.
Qed.

(** X9: a pull request is opened only at the end of a complete
    publication.  Before the command that opens it stand, in this order:
    the creation of a branch, resolved; nothing but file operations and
    clock readings; staging, the address query, the commit and the push of
    that same branch, all resolved; and the head of the pull request is
    that branch. *)
Theorem pr_follows_publication options env w e :
  In e (snd (createGitHubPR options env w)) ->
  is_pr_create e = true ->
  exists before dir branch v0 edits v1 out msg v3 v4 t rest,
    snd (createGitHubPR options env w) =
      (before
         ++ Performed (CommandsRun (GitCheckoutNewBranch dir branch)) (Resolved v0)
         :: edits
         ++ [Performed (CommandsRun (GitAddAll dir)) (Resolved v1);
             Performed (CommandsRun (GhApiUserEmail dir)) (Resolved out);
             Performed (CommandsRun (GitCommit dir msg)) (Resolved v3);
             Performed (CommandsRun (GitPushSetUpstream dir branch)) (Resolved v4);
             ClockRead t;
             e]
         ++ rest)%list /\
    Forall (fun x => is_command x = false) edits /\
    pr_head e = Some branch.
Proof.
  rewrite createGitHubPR_run. cbn [fst snd]. intros Hin Hpr.
  assert (Hin' : In e (filter is_pr_create (snd (try_block options env w)))).
  { apply filter_In. split; assumption. }
  clear Hin. revert Hin'.
  destruct (try_block options env w) as [c evs] eqn:H. cbn [fst snd].
  enter H; try stage_no_return; try (cbn; solve [intros []]).
  all: repeat match goal with
         | E : create_pr _ _ _ _ _ _ _ _ _ _ _ = _ |- _ =>
             apply create_pr_head in E as (t & e' & -> & He' & Hhead)
         | E : commit_and_push _ _ _ _ _ _ = (Normal _, _) |- _ =>
             apply commit_and_push_normal in E as (v1 & out & v3 & v4 & ->)
         | E : create_branch _ _ _ = (Normal _, _) |- _ =>
             apply create_branch_normal in E as (t0 & v0 & ->)
         end.
  all: stage_emits (fun e => is_pr_create e = false) ltac:(reflexivity).
  all: filter_stages is_pr_create; cbn [filter is_pr_create app]; rewrite ?app_nil_r.
  all: try solve [intros []].
  all: rewrite He'; cbn [app In]; intros [<- | []].
  all: match goal with
       | E : ?m ?w0 = (_, ?l) |- context [((_ :: _ :: nil) ++ ?l ++ _)%list] =>
           assert (Fe : Forall (fun x => is_command x = false) l)
             by (let G := fresh in
                 assert (G : emits (fun x => is_command x = false) m)
                   by (judge_all ltac:(reflexivity));
                 specialize (G w0); rewrite E in G; exact G)
       end.
  all: match goal with
       | |- exists _ _ _ _ _ _ _ _ _ _ _ _,
             (?a ++ ?b ++ ?c ++ ?d ++ ?e0 ++ ?f ++ ?g ++ [?x; _] ++ ?edits ++ _)%list = _ /\ _ =>
           exists (a ++ b ++ c ++ d ++ e0 ++ f ++ g ++ [x])%list;
           eexists _, _, _; exists edits
       end.
  all: eexists _, _, _, _, _, _, _.
  all: split; [ rewrite <- ?app_assoc; cbn [app]; reflexivity | ].
  all: split; [ exact Fe | exact Hhead ].
Qed.

Lemma pr_follows_publication_witness :
  exists e before dir branch v0 edits v1 out msg v3 v4 t rest,
    snd (createGitHubPR options_example env_with_token world_with_files) =
      (before
         ++ Performed (CommandsRun (GitCheckoutNewBranch dir branch)) (Resolved v0)
         :: edits
         ++ [Performed (CommandsRun (GitAddAll dir)) (Resolved v1);
             Performed (CommandsRun (GhApiUserEmail dir)) (Resolved out);
             Performed (CommandsRun (GitCommit dir msg)) (Resolved v3);
             Performed (CommandsRun (GitPushSetUpstream dir branch)) (Resolved v4);
             ClockRead t;
             e]
         ++ rest)%list /\
    Forall (fun x => is_command x = false) edits /\
    pr_head e = Some branch.
Proof.
  eexists.
  eapply (pr_follows_publication options_example env_with_token world_with_files).
  - vm_compute. do 22 right. left. reflexivity.
  - reflexivity.
Defined.

(** ** The pull-request command *)




(** ** The parsed names *)










(** ** One directory *)


Ltac within_leaf :=
  cbn [stays_within];
  repeat split;
  [ let Hop := fresh in let Hd := fresh in
    intros ? ? Hop Hd;
    first [ discriminate Hop
          | injection Hop as <-; cbn in Hd;
            first [ discriminate Hd | injection Hd as <-; reflexivity ] ]
  | let Hop := fresh in let Hd := fresh in
    intros ? ? Hop Hd;
    first [ discriminate Hop
          | injection Hop as <-; cbn in Hd;
            first [ discriminate Hd | injection Hd as <-; reflexivity ] ]
  | let Hf := fresh in
    intros ? Hf; cbn in Hf;
    first [ discriminate Hf
          | injection Hf as <-; eexists;
            first [ left; reflexivity | right; reflexivity ] ] ].



(** ** The order of the steps *)

Lemma stages_app a b : stages (a ++ b) = (stages a ++ stages b)%list.
Proof.
  induction a as [| e a IH]; [reflexivity |].
  destruct e as [op r | t]; simpl; [now rewrite IH | exact IH].
Qed.

Lemma ascending_weaken k k' xs :
  (k <= k')%nat -> ascending (k' :: xs) = true -> ascending (k :: xs) = true.
Proof.
  intros Hk. destruct xs as [| y xs]; [reflexivity |].
  cbn [ascending]. intros H. apply andb_true_iff in H as [H1 H2].
  apply andb_true_iff. split; [| exact H2].
  apply Nat.leb_le in H1. apply Nat.leb_le. lia.
Qed.

Lemma ascending_app k k' xs ys :
  Forall (eq k) xs -> (k <= k')%nat -> ascending (k' :: ys) = true ->
  ascending (k :: xs ++ ys) = true.
Proof.
  intros Hxs Hk Hys. induction Hxs as [| x xs <- _ IH].
  - cbn [app]. exact (ascending_weaken _ _ _ Hk Hys).
  - change (ascending (k :: k :: (xs ++ ys)%list) = true).
    cbn [ascending]. cbn [ascending] in IH. rewrite Nat.leb_refl. exact IH.
Qed.

Lemma ascending_bounds k xs : ascending (k :: xs) = true -> Forall (le k) xs.
Proof.
  revert k. induction xs as [| y xs IH]; intros k H; [constructor |].
  cbn [ascending] in H. apply andb_true_iff in H as [H1 H2].
  apply Nat.leb_le in H1. constructor; [exact H1 |].
  apply IH. exact (ascending_weaken _ _ _ H1 H2).
Qed.

Lemma ascending_tail k xs : ascending (k :: xs) = true -> ascending xs = true.
Proof.
  destruct xs as [| y xs]; [reflexivity |].
  cbn [ascending]. intros H. now apply andb_true_iff in H as [_ H].
Qed.

Lemma ascending_pair a x b y c :
  ascending (a ++ x :: b ++ y :: c) = true -> (x <= y)%nat.
Proof.
  induction a as [| z a IH]; cbn [app]; intros H.
  - apply ascending_bounds in H. apply Forall_app in H as [_ H].
    now inversion H.
  - apply IH. exact (ascending_tail _ _ H).
Qed.

Lemma stages_in_stage k l : Forall (in_stage k) l -> Forall (eq k) (stages l).
Proof.
  induction 1 as [| [op r | t] l H _ IH]; cbn [stages]; [constructor | | exact IH].
  constructor; [| exact IH]. symmetry. exact (H op r eq_refl).
Qed.

(** A step followed by the rest of the program. *)
Lemma ordered_bind {A B} k k' (m : M A) (f : A -> M B) :
  emits (in_stage k) m -> (k <= k')%nat ->
  (forall a, ordered_from k' (f a)) ->
  ordered_from k (bind m f).
Proof.
  intros Hm Hk Hf w. rewrite bind_run.
  specialize (Hm w). apply stages_in_stage in Hm.
  destruct (m w) as [[a | r | e] evs]; cbn [fst snd] in *.
  - specialize (Hf a (extend w evs)).
    destruct (f a (extend w evs)) as [c evs']. cbn [fst snd] in *.
    rewrite stages_app. exact (ascending_app _ _ _ _ Hm Hk Hf).
  - rewrite <- (app_nil_r (stages evs)). now apply (ascending_app k k).
  - rewrite <- (app_nil_r (stages evs)). now apply (ascending_app k k).
Qed.

Lemma ordered_return {A} k (r : CreatePRResult) : ordered_from k (@return_ A r).
Proof. intros w. reflexivity. Qed.

Ltac stage_leaf :=
  first [ exact I
        | let H := fresh in
          intros ? ? H; first [ discriminate H | injection H as <- _; reflexivity ] ].

Ltac next_stage k :=
  apply (ordered_bind k (S k));
  [ judge_all ltac:(stage_leaf) | repeat constructor | intros ? ].

Lemma try_block_ordered options env : ordered_from 0 (try_block options env).
Proof.
  unfold try_block, createGitHubPR_try.
  destruct (falsy _); [apply ordered_return |].
  destruct (exec repo_re (repoUrl options)) as [m |]; [| apply ordered_return].
  destruct (parse_repo m) as [owner repoName].
  next_stage 0%nat. next_stage 1%nat. next_stage 2%nat. next_stage 3%nat.
  next_stage 4%nat.
  repeat match goal with
         | |- context [match ?x with pair _ _ => _ end] => is_var x; destruct x
         end.
  next_stage 5%nat. next_stage 6%nat. next_stage 7%nat. next_stage 8%nat.
  next_stage 9%nat. next_stage 10%nat. next_stage 11%nat.
  apply ordered_return.
Qed.

(** X13: the steps of the workflow are never revisited.  Of two operations
    of a call, the earlier one belongs to the same step of the program or
    to an earlier one: sandbox, session, authentication, identity, clone or
    repair, synchronisation, branch, file edits, commit and push, pull
    request, shutdown. *)
Theorem steps_in_order options env w before op1 r1 between op2 r2 rest :
  snd (createGitHubPR options env w) =
    (before ++ Performed op1 r1 :: between ++ Performed op2 r2 :: rest)%list ->
  (stage_of op1 <= stage_of op2)%nat.
Proof.
  rewrite createGitHubPR_run. cbn [fst snd]. intros H.
  pose proof (try_block_ordered options env w) as G.
  apply ascending_tail in G. rewrite H in G.
  rewrite stages_app in G. cbn [stages] in G.
  rewrite stages_app in G. cbn [stages] in G.
  exact (ascending_pair _ _ _ _ _ G).
Qed.

Lemma steps_in_order_witness :
  (stage_of (CommandsRun (GitClone "https://github.com/cuevaio/tinte" "tinte"))
   <= stage_of (FsWriteTextFile "tinte/AI_NOTES.md" "# AI Agent Notes"))%nat.
Proof.
  pose (evs := snd (createGitHubPR options_example env_with_token world_with_files)).
  apply (steps_in_order options_example env_with_token world_with_files
           (firstn 8 evs) _ (Resolved "") (firstn 7 (skipn 9 evs)) _ (Resolved "")
           (skipn 17 evs)).
  vm_compute. reflexivity.
Defined.

(** ** Where a failed call stops *)

Lemma stops_ret {A} (a : A) : stops_at_rejection (ret a).
Proof. intros w e [=]. Qed.

Lemma stops_return {A} r : stops_at_rejection (@return_ A r).
Proof. intros w e [=]. Qed.

Lemma stops_now : stops_at_rejection now.
Proof. intros w e [=]. Qed.

Lemma stops_perform op : stops_at_rejection (perform op).
Proof.
  intros w e. unfold perform. cbn [fst snd].
  destruct (respond w (trace w) op) as [v | e']; intros [= <-].
  now exists [], op.
Qed.

Lemma stops_bind {A B} (m : M A) (f : A -> M B) :
  stops_at_rejection m -> (forall a, stops_at_rejection (f a)) ->
  stops_at_rejection (bind m f).
Proof.
  intros Hm Hf w e. rewrite bind_run. specialize (Hm w).
  destruct (m w) as [[a | r | e'] evs]; cbn [fst snd] in *.
  - specialize (Hf a (extend w evs)).
    destruct (f a (extend w evs)) as [c evs']. cbn [fst snd] in *.
    intros Hc. destruct (Hf e Hc) as (pre & op & ->).
    exists (evs ++ pre)%list, op. now rewrite app_assoc.
  - discriminate.
  - intros [= <-]. exact (Hm e' eq_refl).
Qed.

(** What leaves a [try] statement was thrown by its handler. *)
Lemma stops_try_catch {A} (m : M A) h :
  (forall e, stops_at_rejection (h e)) -> stops_at_rejection (try_catch m h).
Proof.
  intros Hh w e. unfold try_catch.
  destruct (m w) as [[a | r | e'] evs]; cbn [fst snd]; try discriminate.
  specialize (Hh e' (extend w evs)).
  destruct (h e' (extend w evs)) as [c evs']. cbn [fst snd] in *.
  intros Hc. destruct (Hh e Hc) as (pre & op & ->).
  exists (evs ++ pre)%list, op. now rewrite app_assoc.
Qed.

Ltac judge_stops :=
  repeat first
    [ apply stops_bind; [ | intros ? ]
    | apply stops_try_catch; intros ?
    | apply stops_ret | apply stops_return | apply stops_now
    | apply stops_perform
    | match goal with
      | |- stops_at_rejection (if ?b then _ else _) =>
          first [ is_constructor b; cbv iota | destruct b ]
      | |- stops_at_rejection (match ?x with _ => _ end) =>
          first [ is_constructor x; cbv iota | destruct x ]
      | |- stops_at_rejection (console_log _) => unfold console_log
      end ].

Lemma stops_write_changes client repoDir changes :
  stops_at_rejection (write_changes client repoDir changes).
Proof.
  induction changes as [| change rest IH]; simpl.
  - apply stops_ret.
  - unfold writeTextFile. judge_stops. exact IH.
Qed.

Lemma stops_resolve_fork client repoUrl owner repoName user :
  stops_at_rejection (resolve_fork client repoUrl owner repoName user).
Proof. intros w e. rewrite resolve_fork_run. discriminate. Qed.

Lemma try_block_stops options env : stops_at_rejection (try_block options env).
Proof.
  unfold try_block, createGitHubPR_try.
  unfold ensure_clone, authenticate, get_authenticated_username,
    sync_main, create_branch, update_readme, commit_and_push, create_pr,
    sandboxes_resume, sandboxes_shutdown, connect, commands_run, readTextFile,
    writeTextFile, apply_changes.
  repeat first [ apply stops_resolve_fork | apply stops_write_changes
               | progress judge_stops ].
Qed.

(** A [return] with a failure is one of the two checks at the start, before
    anything was done. *)
Lemma try_block_failure_return options env w r :
  fst (try_block options env w) = Return r -> success r = false ->
  snd (try_block options env w) = [] /\
  (error r = Some "GITHUB_PERSONAL_ACCESS_TOKEN environment variable is required" \/
   error r = Some "Invalid GitHub repository URL format").
Proof.
  unfold try_block, createGitHubPR_try.
  destruct (falsy _); [intros [= <-] _; split; [reflexivity | now left] |].
  destruct (exec repo_re (repoUrl options)) as [m |];
    [| intros [= <-] _; split; [reflexivity | now right]].
  destruct (parse_repo m) as [owner repoName].
  match goal with
  | |- fst (?m0 w) = _ -> _ =>
      assert (G : returns (fun r => success r = true) m0)
        by (judge_all ltac:(reflexivity))
  end.
  intros Hr Hs. rewrite (G w r Hr) in Hs. discriminate.
Qed.

(** X14: a failed call stops where it failed.  Either it did nothing at
    all and reports one of the two checks at the start, or the last thing
    it did is an operation that was rejected, and the error it reports is
    the message of that rejection (the text [Unknown error occurred] when
    the reason is not an [Error]): nothing runs after the rejected
    operation, not even the shutdown. *)
Theorem failure_stops_at_rejection options env w r :
  fst (createGitHubPR options env w) = Fulfilled r ->
  success r = false ->
  (snd (createGitHubPR options env w) = [] /\
   (error r = Some "GITHUB_PERSONAL_ACCESS_TOKEN environment variable is required" \/
    error r = Some "Invalid GitHub repository URL format")) \/
  (exists pre op e,
     snd (createGitHubPR options env w) = (pre ++ [Performed op (Rejected e)])%list /\
     error r = Some (error_message e "Unknown error occurred")).
Proof.
  rewrite createGitHubPR_run. cbn [fst snd]. intros [= <-].
  pose proof (try_block_stops options env w) as Hs.
  pose proof (try_block_failure_return options env w) as Hr.
  pose proof (try_block_never_normal options env w) as Hn.
  destruct (fst (try_block options env w)) as [r | r | e]; cbn [result_of].
  - exfalso. exact (Hn r eq_refl).
  - intros Hf. left. exact (Hr r eq_refl Hf).
  - intros _. right. destruct (Hs e eq_refl) as (pre & op & ->).
    exists pre, op, e. split; reflexivity.
Qed.

Lemma failure_stops_at_rejection_witness :
  (snd (createGitHubPR options_example env_with_token world_push_denied) = [] /\
   (error (failure "remote: Permission denied") =
      Some "GITHUB_PERSONAL_ACCESS_TOKEN environment variable is required" \/
    error (failure "remote: Permission denied") =
      Some "Invalid GitHub repository URL format")) \/
  (exists pre op e,
     snd (createGitHubPR options_example env_with_token world_push_denied)
       = (pre ++ [Performed op (Rejected e)])%list /\
     error (failure "remote: Permission denied")
       = Some (error_message e "Unknown error occurred")).
Proof.
  apply (failure_stops_at_rejection options_example env_with_token world_push_denied).
  - vm_compute. reflexivity.
  - reflexivity.
Defined.

(** ** What a success reports *)

Lemma extract_pr_url_prefix out owner repoName :
  exists tail,
    extract_pr_url out owner repoName = "https://github.com/" ++ tail /\ tail <> "".
Proof.
  destruct (extract_pr_url_spec out owner repoName)
    as [(u & (_ & _ & _ & (run & -> & Hrun & _) & _) & ->) | [_ ->]].
  - now exists run.
  - eexists. split; [reflexivity |]. destruct owner; discriminate.
Qed.

(** X15: the branch and the URL of a success are those of the publication.
    The branch it names was pushed (the push was resolved) and is the head
    of the pull-request command of the call, and the URL it gives starts
    with [https://github.com/] and goes on. *)
Theorem success_reports_publication options env w r d :
  fst (createGitHubPR options env w) = Fulfilled r ->
  data r = Some d ->
  (exists dir v,
     In (Performed (CommandsRun (GitPushSetUpstream dir (branchName d))) (Resolved v))
        (snd (createGitHubPR options env w))) /\
  (exists e, In e (snd (createGitHubPR options env w)) /\
             is_pr_create e = true /\ pr_head e = Some (branchName d)) /\
  (exists tail, prUrl d = "https://github.com/" ++ tail /\ tail <> "").
Proof.
  rewrite createGitHubPR_run. cbn [fst snd]. intros [= <-].
  destruct (try_block options env w) as [c evs] eqn:H. cbn [fst snd].
  enter H; try stage_no_return; try (cbn; discriminate).
  cbn [result_of data]. intros [= <-]. cbn [branchName prUrl].
  repeat match goal with
         | E : create_pr _ _ _ _ _ _ _ _ _ _ _ = _ |- _ =>
             pose proof (create_pr_head _ _ _ _ _ _ _ _ _ _ _ _ _ E)
               as (t & e' & -> & He' & Hhead);
             apply create_pr_inv in E as (_ & _ & _ & _ & _ & out & _ & ->)
         | E : commit_and_push _ _ _ _ _ _ = (Normal _, _) |- _ =>
             apply commit_and_push_normal in E as (v1 & eo & v3 & v4 & ->)
         end.
  split; [| split].
  - eexists _, _. in_events.
  - exists e'. split; [in_events | split; assumption].
  - apply extract_pr_url_prefix.
Qed.

Lemma success_reports_publication_witness :
  (exists dir v,
     In (Performed (CommandsRun (GitPushSetUpstream dir "code0-1700000000014"))
           (Resolved v))
        (snd (createGitHubPR options_example env_with_token world_with_files))) /\
  (exists e, In e (snd (createGitHubPR options_example env_with_token world_with_files)) /\
             is_pr_create e = true /\ pr_head e = Some "code0-1700000000014") /\
  (exists tail, "https://github.com/railly/tinte/pull/12" = "https://github.com/" ++ tail
                /\ tail <> "").
Proof.
  eapply (success_reports_publication options_example env_with_token world_with_files
             _ {| prUrl := "https://github.com/railly/tinte/pull/12";
                 branchName := "code0-1700000000014";
                 sandboxId := "wmwx2g";
                 forked := Some true;
                 forkUrl := Some "https://github.com/cuevaio/tinte" |}).
  - vm_compute. reflexivity.
  - reflexivity.
Defined.

(** ** The example *)

Ltac note_leaf :=
  first [ exact I
        | let H := fresh in let Hf := fresh in
          intros ? ? ? H Hf;
          first [ discriminate H
                | injection H as <- _; cbn in Hf;
                  first [ discriminate Hf | reflexivity ] ] ].

(** X16: what the example does.  [createPRExample] reads the clock once,
    before anything else, and never rejects; the only file it touches in
    the sandbox is [tinte/AI_NOTES.md], written with the note that carries
    that first reading of the clock (the README is neither read nor
    written); and all its work stays within the directory [tinte], with
    [https://github.com/railly/tinte] as upstream. *)
Theorem example_writes_one_note env w :
  let t := time w (trace w) in
  exists r evs,
    createPRExample env w = (Fulfilled r, ClockRead t :: evs) /\
    Forall (fun e => forall op reply file,
              e = Performed op reply -> file_of op = Some file ->
              op = FsWriteTextFile "tinte/AI_NOTES.md" (example_note t)) evs /\
    Forall (stays_within "tinte" "https://github.com/railly/tinte") evs.
Proof.
  cbv zeta. unfold createPRExample. rewrite createGitHubPR_run.
  eexists _, _. split; [reflexivity |].
  set (t := time w (trace w)). set (w' := extend w [ClockRead t]).
  split.
  - assert (G : emits (fun e => forall op reply file,
                         e = Performed op reply -> file_of op = Some file ->
                         op = FsWriteTextFile "tinte/AI_NOTES.md" (example_note t))
                      (try_block (createPRExample_options t) env)).
    { unfold try_block, createGitHubPR_try.
      destruct (falsy _); [apply emits_return |].
      destruct (exec repo_re _) as [m |] eqn:E; [| apply emits_return].
      vm_compute in E. injection E as <-.
      destruct (parse_repo _) as [owner repoName] eqn:Ep.
      vm_compute in Ep. injection Ep as <- <-.
      unfold apply_changes.
      cbn [fileChanges createPRExample_options length Nat.ltb Nat.leb write_changes].
      judge_all ltac:(note_leaf). }
    exact (G w').
  - assert (G : emits (stays_within "tinte" "https://github.com/railly/tinte")
                      (try_block (createPRExample_options t) env)).
    { unfold try_block, createGitHubPR_try.
      destruct (falsy _); [apply emits_return |].
      destruct (exec repo_re _) as [m |] eqn:E; [| apply emits_return].
      vm_compute in E. injection E as <-.
      destruct (parse_repo _) as [owner repoName] eqn:Ep.
      vm_compute in Ep. injection Ep as <- <-.
      unfold apply_changes.
      cbn [fileChanges createPRExample_options length Nat.ltb Nat.leb write_changes].
      judge_all ltac:(first [ exact I | within_leaf ]). }
    exact (G w').
Qed.

(** ** A README that cannot be written back *)

(** The default update, when the README could be read: the write-back of
    the old content with the section and, when that write is rejected, the
    write of a new README by the handler. *)
Lemma apply_changes_read client dir repoName changes w c evs file old :
  apply_changes client dir repoName changes w = (c, evs) ->
  In (Performed (FsReadTextFile file) (Resolved old)) evs ->
  file = readme_path dir /\
  exists t reply rest,
    evs = Performed (FsReadTextFile file) (Resolved old)
          :: ClockRead t
          :: Performed (FsWriteTextFile file
                          (old ++ readme_update_section (toISOString t))) reply
          :: rest /\
    match reply with
    | Resolved _ => rest = [] /\ c = Normal tt
    | Rejected _ =>
        exists t' reply',
          rest = [ClockRead t';
                  Performed (FsWriteTextFile file
                               ("# " ++ repoName ++
                                readme_create_section (toISOString t'))) reply'] /\
          c = match reply' with
              | Resolved _ => Normal tt
              | Rejected e' => Throw e'
              end
    end.
Proof.
  destruct changes as [| change changes].
  - rewrite apply_changes_default.
    unfold update_readme, readTextFile, writeTextFile. repeat run_step.
    all: run_norm; intros [= <- <-] Hin; in_cases Hin.
    all: injection Hin as <- <-; split; [reflexivity |].
    + eexists _, (Resolved _), _. split; [reflexivity |]. split; reflexivity.
    + eexists _, (Rejected _), _. split; [reflexivity |].
      eexists _, (Resolved _). split; reflexivity.
    + eexists _, (Rejected _), _. split; [reflexivity |].
      eexists _, (Rejected _). split; reflexivity.
  - change (apply_changes client dir repoName (change :: changes))
      with (write_changes client dir (change :: changes)).
    intros E Hin. exfalso.
    assert (G : emits (fun e => forall f v, e <> Performed (FsReadTextFile f) v)
                  (write_changes client dir (change :: changes))).
    { apply emits_write_changes. intros; discriminate. }
    specialize (G w). rewrite E in G. cbn [snd] in G.
    rewrite Forall_forall in G. exact (G _ Hin _ _ eq_refl).
Qed.

(** X17: a README that was read but cannot be written back is replaced.
    After a resolved read of the README the old content is written back
    with the section appended; when that write is rejected the call does
    not fail: it reads the clock again and writes a new README, the title
    and the section alone, to the same file. *)
Theorem rejected_write_back_is_replaced options env w owner repoName file old :
  parse_url (repoUrl options) = Some (owner, repoName) ->
  In (Performed (FsReadTextFile file) (Resolved old))
     (snd (createGitHubPR options env w)) ->
  file = readme_path repoName /\
  exists before t reply rest,
    snd (createGitHubPR options env w) =
      (before
         ++ Performed (FsReadTextFile file) (Resolved old)
         :: ClockRead t
         :: Performed (FsWriteTextFile file
                         (old ++ readme_update_section (toISOString t))) reply
         :: rest)%list /\
    forall e, reply = Rejected e ->
      exists t' reply' rest',
        rest = (ClockRead t'
                  :: Performed (FsWriteTextFile file
                                  ("# " ++ repoName ++
                                   readme_create_section (toISOString t'))) reply'
                  :: rest')%list.
Proof.
  intros Hparse. rewrite createGitHubPR_run. cbn [fst snd]. intros Hin.
  unfold parse_url in Hparse.
  assert (Hin' : In (Performed (FsReadTextFile file) (Resolved old))
                   (filter is_fs (snd (try_block options env w)))).
  { apply filter_In. split; [exact Hin | reflexivity]. }
  clear Hin. revert Hin'.
  destruct (try_block options env w) as [c evs] eqn:H. cbn [fst snd].
  enter H; try discriminate; try stage_no_return; try (cbn; solve [intros []]).
  all: try injection Hparse as -> ->.
  all: match goal with
       | E : apply_changes _ _ _ _ _ = _ |- _ =>
           pose proof (apply_changes_read _ _ _ _ _ _ _ file old E) as Hread;
           revert Hread; clear E
       | _ => idtac
       end.
  all: no_fs_elsewhere.
  all: filter_stages is_fs; cbn [filter is_fs app]; rewrite ?app_nil_r.
  all: try solve [intros []].
  all: intros Hread Hin; apply filter_In in Hin as [Hin _].
  all: destruct (Hread Hin) as (-> & t & reply & rest & -> & Hreply).
  all: split; [ reflexivity | ].
  all: match goal with
       | |- exists _ _ _ _,
             (?a ++ ?b ++ ?c ++ ?d ++ ?e0 ++ ?f ++ ?g ++ ?h ++ _)%list = _ /\ _ =>
           exists (a ++ b ++ c ++ d ++ e0 ++ f ++ g ++ h)%list
       end.
  all: exists t, reply.
  all: eexists; split; [ rewrite <- ?app_assoc; cbn [app]; reflexivity | ].
  all: intros ? ->; destruct Hreply as (t' & reply' & -> & _).
  all: eexists _, _, _; cbn [app]; reflexivity.
Qed.

Lemma rejected_write_back_is_replaced_witness :
  "./tinte/README.md" = readme_path "tinte" /\
  exists before t reply rest,
    snd (createGitHubPR (options_url "https://github.com/railly/tinte")
           env_with_token world_write_refused_once) =
      (before
         ++ Performed (FsReadTextFile "./tinte/README.md") (Resolved "# tinte")
         :: ClockRead t
         :: Performed (FsWriteTextFile "./tinte/README.md"
                         ("# tinte" ++ readme_update_section (toISOString t))) reply
         :: rest)%list /\
    forall e, reply = Rejected e ->
      exists t' reply' rest',
        rest = (ClockRead t'
                  :: Performed (FsWriteTextFile "./tinte/README.md"
                                  ("# " ++ "tinte" ++
                                   readme_create_section (toISOString t'))) reply'
                  :: rest')%list.
Proof.
  apply (rejected_write_back_is_replaced (options_url "https://github.com/railly/tinte")
           env_with_token world_write_refused_once "railly" "tinte").
  - vm_compute. reflexivity.
  - vm_compute. in_list.
Defined.
